(** * The AI enrichment service of algolia-ai-enrichment

    A shallow embedding of [enrichContentWithAI] and [processArticles]
    (the enrichment service that the indexing script requires) together with
    the fragment of the JavaScript runtime they run on, and the properties
    of the enrichment pipeline proved about them.

    Layout: the runtime ([Js], [JSON]), the world and the service, the
    vocabulary and the sample data of the properties, then the
    properties. *)

From Stdlib Require Import ZArith NArith Ascii String SpecFloat.
From stdpp Require Import gmap list.

Set Warnings "-register-all".

(** ** Text

    A JavaScript string is a sequence of UTF-16 code units. *)

Abbreviation jsstring := (list N).

(** The code units of an ASCII literal of this development. *)
Definition lit (s : string) : jsstring :=
  N_of_ascii <$> list_ascii_of_string s.

(** The same, with every apostrophe read as a double quote: used to write
    JSON sample texts. *)
Definition json_lit (s : string) : jsstring :=
  (λ c, if (c =? 39)%N then 34%N else c) <$> lit s.

Definition LF : N := 10.
Definition DQUOTE : N := 34.
Definition COMMA : N := 44.
Definition LBRACE : N := 123.
Definition RBRACE : N := 125.

(** ** Values

    The values the service handles: JSON data, [undefined], and error
    objects.  Numbers are IEEE 754 binary64 ([spec_float] at precision 53),
    objects are finite maps from property names to values (own enumerable
    data properties; enumeration order is not represented). *)

Inductive value :=
| VUndefined
| VNull
| VBool (b : bool)
| VNumber (x : spec_float)
| VString (s : jsstring)
| VArray (l : list value)
| VObject (o : gmap jsstring value)
| VError (name message : jsstring).

(** What a function call produces: a value, or a thrown value (for an
    [async] function: a promise fulfilled or rejected, as seen by [await]). *)
Inductive completion (A : Type) :=
| Return (a : A)
| Throw (e : value).
Arguments Return {A} a.
Arguments Throw {A} e.

#[global] Instance completion_ret : MRet completion := @Return.
#[global] Instance completion_bind : MBind completion :=
  λ A B f c, match c with Return a => f a | Throw e => Throw e end.

Definition TypeError (message : string) : value :=
  VError (lit "TypeError") (lit message).
Definition SyntaxError (message : string) : value :=
  VError (lit "SyntaxError") (lit message).
(** [new Error(message)] *)
Definition Error (message : jsstring) : value :=
  VError (lit "Error") message.

Module Js.

(** The number value of a natural number (an array length). *)
Definition number_of_nat (n : nat) : spec_float :=
  binary_normalize 53 1024 (Z.of_nat n) 0 false.

(** ToBoolean *)
Definition truthy (v : value) : bool :=
  match v with
  | VUndefined | VNull => false
  | VBool b => b
  | VNumber (S754_zero _) | VNumber S754_nan => false
  | VNumber _ => true
  | VString [] => false
  | VString _ => true
  | VArray _ | VObject _ | VError _ _ => true
  end.

Definition typeof (v : value) : jsstring :=
  match v with
  | VUndefined => lit "undefined"
  | VBool _ => lit "boolean"
  | VNumber _ => lit "number"
  | VString _ => lit "string"
  | VNull | VArray _ | VObject _ | VError _ _ => lit "object"
  end.

(** [v === 0] *)
Definition is_zero (v : value) : bool :=
  match v with
  | VNumber (S754_zero _) => true
  | _ => false
  end.

(** [a || b] *)
Definition or (a b : value) : value := if truthy a then a else b.

(** *** Property keys that are array indices *)

Fixpoint digits_of_uint (d : Decimal.uint) : jsstring :=
  match d with
  | Decimal.Nil => []
  | Decimal.D0 d => 48%N :: digits_of_uint d
  | Decimal.D1 d => 49%N :: digits_of_uint d
  | Decimal.D2 d => 50%N :: digits_of_uint d
  | Decimal.D3 d => 51%N :: digits_of_uint d
  | Decimal.D4 d => 52%N :: digits_of_uint d
  | Decimal.D5 d => 53%N :: digits_of_uint d
  | Decimal.D6 d => 54%N :: digits_of_uint d
  | Decimal.D7 d => 55%N :: digits_of_uint d
  | Decimal.D8 d => 56%N :: digits_of_uint d
  | Decimal.D9 d => 57%N :: digits_of_uint d
  end.

(** The property key of index [i]: its decimal numeral. *)
Definition index_key (i : N) : jsstring := digits_of_uint (N.to_uint i).

Definition is_digit (c : N) : bool := ((48 <=? c) && (c <=? 57))%N.

Definition number_of_digits (ds : jsstring) : N :=
  foldl (λ acc c, acc * 10 + (c - 48))%N 0%N ds.

(** The index a property key denotes, when it is the canonical numeral
    of one. *)
Definition key_index (k : jsstring) : option N :=
  if forallb is_digit k && bool_decide (index_key (number_of_digits k) = k)
  then Some (number_of_digits k) else None.

Definition nth_value (l : list value) (i : N) : value :=
  if (i <? N.of_nat (length l))%N
  then default VUndefined (l !! N.to_nat i) else VUndefined.

Definition nth_unit (s : jsstring) (i : N) : value :=
  if (i <? N.of_nat (length s))%N
  then from_option (λ c, VString [c]) VUndefined (s !! N.to_nat i)
  else VUndefined.

(** [v.k] and [v[k]]: reading a property.  Only own properties are data
    here; none of the names the service reads is inherited from a
    built-in prototype.  Reading from [undefined] or [null] throws. *)
Definition get (v : value) (k : jsstring) : completion value :=
  match v with
  | VUndefined =>
      Throw (TypeError "Cannot read properties of undefined")
  | VNull =>
      Throw (TypeError "Cannot read properties of null")
  | VBool _ | VNumber _ => Return VUndefined
  | VString s =>
      if bool_decide (k = lit "length")
      then Return (VNumber (number_of_nat (length s)))
      else Return (from_option (nth_unit s) VUndefined (key_index k))
  | VArray l =>
      if bool_decide (k = lit "length")
      then Return (VNumber (number_of_nat (length l)))
      else Return (from_option (nth_value l) VUndefined (key_index k))
  | VObject o => Return (default VUndefined (o !! k))
  | VError name message =>
      if bool_decide (k = lit "message") then Return (VString message)
      else if bool_decide (k = lit "name") then Return (VString name)
      else Return VUndefined
  end.

(** [v.k1.k2...], left to right. *)
Definition path (v : value) (ks : list jsstring) : completion value :=
  foldl (λ c k, c ≫= (λ x, get x k)) (Return v) ks.

(** *** ToString, as far as it can throw

    A template literal converts each substituted value to text.  For the
    values above this fails in one case: an object with an own property
    [toString] (never callable here), for which neither [toString] nor
    the inherited [valueOf] yields a primitive.  An array converts its
    elements ([undefined] and [null] to the empty text). *)
Fixpoint stringifies (v : value) : bool :=
  match v with
  | VArray l => forallb stringifies l
  | VObject o => bool_decide (o !! lit "toString" = None)
  | _ => true
  end.

(** *** String methods *)

(** [s.indexOf(c)] for a one-unit search text [c]: the position of its
    first occurrence, or -1. *)
Fixpoint indexOf (s : jsstring) (c : N) : Z :=
  match s with
  | [] => -1
  | x :: r =>
      if (x =? c)%N then 0
      else let i := indexOf r c in if (i =? -1)%Z then -1 else 1 + i
  end%Z.

(** [s.lastIndexOf(c)]: the position of the last occurrence, or -1. *)
Fixpoint lastIndexOf (s : jsstring) (c : N) : Z :=
  match s with
  | [] => -1
  | x :: r =>
      let i := lastIndexOf r c in
      if (i =? -1)%Z then (if (x =? c)%N then 0 else -1) else 1 + i
  end%Z.

(** [s.substring(a, b)]: both bounds are clamped to the text and swapped
    when out of order. *)
Definition substring (s : jsstring) (a b : Z) : jsstring :=
  let len := Z.of_nat (length s) in
  let a' := Z.min (Z.max a 0) len in
  let b' := Z.min (Z.max b 0) len in
  let from := Z.min a' b' in
  let to := Z.max a' b' in
  take (Z.to_nat (to - from)) (drop (Z.to_nat from) s).

(** White space and line terminators, as [trim] understands them. *)
Definition is_space (c : N) : bool :=
  bool_decide (c ∈ [9; 10; 11; 12; 13; 32; 160; 5760; 8232; 8233; 8239;
                    8287; 12288; 65279]%N)
  || ((8192 <=? c) && (c <=? 8202))%N.

Fixpoint trimStart (s : jsstring) : jsstring :=
  match s with
  | [] => []
  | c :: r => if is_space c then trimStart r else s
  end.

Fixpoint trimEnd (s : jsstring) : jsstring :=
  match s with
  | [] => []
  | c :: r =>
      match trimEnd r with
      | [] => if is_space c then [] else [c]
      | r' => c :: r'
      end
  end.

Definition trim (s : jsstring) : jsstring := trimEnd (trimStart s).

(** [s.split(sep)] for a one-unit separator. *)
Fixpoint split (s : jsstring) (sep : N) : list jsstring :=
  match s with
  | [] => [[]]
  | c :: r =>
      if (c =? sep)%N then [] :: split r sep
      else match split r sep with
           | h :: t => (c :: h) :: t
           | [] => [[c]]
           end
  end.

(** [strip_prefix p s]: what follows [p] in [s], when [s] starts with
    [p]. *)
Fixpoint strip_prefix (p s : jsstring) : option jsstring :=
  match p, s with
  | [], _ => Some s
  | a :: p', b :: s' => if (a =? b)%N then strip_prefix p' s' else None
  | _ :: _, [] => None
  end.

Definition fence_open : jsstring := lit "```json" ++ [LF].
Definition fence_close : jsstring := LF :: lit "```".

(** The scan of the second alternative of the pattern below: the text
    from some position on is exactly the closing fence. *)
Fixpoint drop_closing_fence (s : jsstring) : jsstring :=
  if bool_decide (s = fence_close) then []
  else match s with
       | [] => []
       | c :: r => c :: drop_closing_fence r
       end.

(** [s.replace(/^```json\n|\n```$/g, '')]: without the [m] flag the
    first alternative matches at the start of the text only and the
    second at its end only; after a match of the first the scan resumes
    behind it. *)
Definition replace_fences (s : jsstring) : jsstring :=
  match strip_prefix fence_open s with
  | Some r => drop_closing_fence r
  | None => drop_closing_fence s
  end.

(** The iteration of a text by [for...of]: one text per code point, a
    surrogate pair staying together. *)
Definition is_lead (c : N) : bool := ((55296 <=? c) && (c <=? 56319))%N.
Definition is_trail (c : N) : bool := ((56320 <=? c) && (c <=? 57343))%N.

Fixpoint code_points (s : jsstring) : list jsstring :=
  match s with
  | [] => []
  | c :: r =>
      match r with
      | d :: r' =>
          if is_lead c && is_trail d then [c; d] :: code_points r'
          else [c] :: code_points r
      | [] => [[c]]
      end
  end.

(** [for (const x of v)]: the values iterated, or the TypeError of a
    value that is not iterable. *)
Definition iterate (v : value) : completion (list value) :=
  match v with
  | VArray l => Return l
  | VString s => Return (VString <$> code_points s)
  | VUndefined | VNull | VBool _ | VNumber _ | VObject _ | VError _ _ =>
      Throw (TypeError "articles is not iterable")
  end.

(** [{...v}]: the own enumerable properties copied by an object spread. *)
Definition indexed (l : list value) : gmap jsstring value :=
  list_to_map (imap (λ i x, (index_key (N.of_nat i), x)) l).

Definition spread (v : value) : gmap jsstring value :=
  match v with
  | VObject o => o
  | VArray l => indexed l
  | VString s => indexed ((λ c, VString [c]) <$> s)
  | VUndefined | VNull | VBool _ | VNumber _ | VError _ _ => ∅
  end.

End Js.

(** ** JSON.parse *)

(** The code unit of an ASCII character. *)
Definition ch (a : ascii) : N := N_of_ascii a.

Module JSON.

(** The number nearest to [(-1)^neg * m * 10^e], ties to even. *)
Definition decimal_to_number (neg : bool) (m : N) (e : Z) : spec_float :=
  match m with
  | N0 => S754_zero neg
  | Npos p =>
      if (0 <=? e)%Z
      then binary_normalize 53 1024
             ((if neg then Z.neg p else Z.pos p) * 10 ^ e)%Z 0 neg
      else SFdiv 53 1024 (S754_finite neg p 0)
             (S754_finite false (Z.to_pos (10 ^ (- e))) 0)
  end.

(** Tab, line feed, carriage return, space. *)
Definition is_ws (c : N) : bool :=
  ((c =? 9) || (c =? 10) || (c =? 13) || (c =? 32))%N.

Fixpoint skip_ws (s : jsstring) : jsstring :=
  match s with
  | c :: r => if is_ws c then skip_ws r else s
  | [] => []
  end.

(** The maximal run of decimal digits at the start of a text. *)
Fixpoint span_digits (s : jsstring) : jsstring * jsstring :=
  match s with
  | c :: r =>
      if Js.is_digit c
      then let '(ds, r') := span_digits r in (c :: ds, r')
      else ([], s)
  | [] => ([], [])
  end.

(** A run of at least one digit. *)
Definition digits1 (s : jsstring) : option (jsstring * jsstring) :=
  match span_digits s with
  | ([], _) => None
  | p => Some p
  end.

Definition hex_digit (c : N) : option N :=
  if ((48 <=? c) && (c <=? 57))%N then Some (c - 48)%N
  else if ((65 <=? c) && (c <=? 70))%N then Some (c - 55)%N
  else if ((97 <=? c) && (c <=? 102))%N then Some (c - 87)%N
  else None.

(** The code unit written by a one-letter escape. *)
Definition escape (e : N) : option N :=
  if (e =? DQUOTE)%N then Some DQUOTE
  else if (e =? ch "\")%N then Some (ch "\")
  else if (e =? ch "/")%N then Some (ch "/")
  else if (e =? ch "b")%N then Some 8%N
  else if (e =? ch "f")%N then Some 12%N
  else if (e =? ch "n")%N then Some 10%N
  else if (e =? ch "r")%N then Some 13%N
  else if (e =? ch "t")%N then Some 9%N
  else None.

(** The characters of a string token after its opening quote, up to and
    including the closing quote. *)
Fixpoint parse_chars (s : jsstring) : option (jsstring * jsstring) :=
  match s with
  | [] => None
  | c :: r =>
      if (c =? DQUOTE)%N then Some ([], r)
      else if (c =? ch "\")%N then
        match r with
        | [] => None
        | e :: r1 =>
            if (e =? ch "u")%N then
              match r1 with
              | x1 :: x2 :: x3 :: x4 :: r2 =>
                  h1 ← hex_digit x1; h2 ← hex_digit x2;
                  h3 ← hex_digit x3; h4 ← hex_digit x4;
                  '(cs, rest) ← parse_chars r2;
                  Some ((((h1 * 16 + h2) * 16 + h3) * 16 + h4)%N :: cs, rest)
              | _ => None
              end
            else
              u ← escape e;
              '(cs, rest) ← parse_chars r1;
              Some (u :: cs, rest)
        end
      else if (c <? 32)%N then None
      else '(cs, rest) ← parse_chars r; Some (c :: cs, rest)
  end.

(** An optional sign. *)
Definition parse_sign (plus : bool) (s : jsstring) : bool * jsstring :=
  match s with
  | c :: r =>
      if (c =? ch "-")%N then (true, r)
      else if plus && (c =? ch "+")%N then (false, r)
      else (false, s)
  | [] => (false, s)
  end.

(** A number token: an optional minus sign, an integer part (a single
    zero, or digits not starting with zero), an optional fraction (a dot
    and digits), an optional exponent ([e] or [E], a sign, digits). *)
Definition parse_number (s : jsstring) : option (value * jsstring) :=
  let '(neg, s1) := parse_sign false s in
  '(int, s2) ←
    match s1 with
    | c :: r => if (c =? ch "0")%N then Some ([c], r) else digits1 s1
    | [] => None
    end;
  '(frac, s3) ←
    match s2 with
    | c :: r => if (c =? ch ".")%N then digits1 r else Some ([], s2)
    | [] => Some ([], s2)
    end;
  '(exp, s4) ←
    match s3 with
    | c :: r =>
        if ((c =? ch "e") || (c =? ch "E"))%N then
          let '(eneg, r1) := parse_sign true r in
          '(ds, r2) ← digits1 r1;
          let n := Z.of_N (Js.number_of_digits ds) in
          Some (if eneg then (- n)%Z else n, r2)
        else Some (0%Z, s3)
    | [] => Some (0%Z, s3)
    end;
  Some (VNumber (decimal_to_number neg (Js.number_of_digits (int ++ frac))
                   (exp - Z.of_nat (length frac))), s4).

(** The elements of an array behind its opening bracket, [pv] parsing one
    value; [k] bounds the number of elements. *)
Fixpoint parse_elements (pv : jsstring → option (value * jsstring))
    (k : nat) (s : jsstring) (acc : list value) : option (value * jsstring) :=
  match k with
  | O => None
  | S k' =>
      '(v, r) ← pv s;
      match skip_ws r with
      | c :: r' =>
          if (c =? ch ",")%N then parse_elements pv k' r' (acc ++ [v])
          else if (c =? ch "]")%N then Some (VArray (acc ++ [v]), r')
          else None
      | [] => None
      end
  end.

(** The members of an object behind its opening brace; of two members
    with the same name the later one stays. *)
Fixpoint parse_members (pv : jsstring → option (value * jsstring))
    (k : nat) (s : jsstring) (acc : gmap jsstring value)
  : option (value * jsstring) :=
  match k with
  | O => None
  | S k' =>
      match skip_ws s with
      | q :: r =>
          if (q =? DQUOTE)%N then
            '(key, r1) ← parse_chars r;
            match skip_ws r1 with
            | c :: r2 =>
                if (c =? ch ":")%N then
                  '(v, r3) ← pv r2;
                  match skip_ws r3 with
                  | d :: r' =>
                      if (d =? ch ",")%N
                      then parse_members pv k' r' (<[key := v]> acc)
                      else if (d =? ch "}")%N
                      then Some (VObject (<[key := v]> acc), r')
                      else None
                  | [] => None
                  end
                else None
            | [] => None
            end
          else None
      | [] => None
      end
  end.

(** A literal name. *)
Definition parse_literal (s : jsstring) : option (value * jsstring) :=
  match Js.strip_prefix (lit "true") s with
  | Some rest => Some (VBool true, rest)
  | None =>
      match Js.strip_prefix (lit "false") s with
      | Some rest => Some (VBool false, rest)
      | None =>
          match Js.strip_prefix (lit "null") s with
          | Some rest => Some (VNull, rest)
          | None => None
          end
      end
  end.

(** A value at the start of a text, and the text behind it.  The fuel
    [n] bounds the nesting depth; the length of the text bounds it, as it
    bounds the number of members of an array or object. *)
Fixpoint parse_value (n : nat) (s : jsstring) : option (value * jsstring) :=
  match n with
  | O => None
  | S n' =>
      match skip_ws s with
      | [] => None
      | c :: r =>
          if (c =? ch "{")%N then
            match skip_ws r with
            | d :: r' =>
                if (d =? ch "}")%N then Some (VObject ∅, r')
                else parse_members (parse_value n') (length r) r ∅
            | [] => None
            end
          else if (c =? ch "[")%N then
            match skip_ws r with
            | d :: r' =>
                if (d =? ch "]")%N then Some (VArray [], r')
                else parse_elements (parse_value n') (length r) r []
            | [] => None
            end
          else if (c =? DQUOTE)%N then
            '(cs, rest) ← parse_chars r; Some (VString cs, rest)
          else if (c =? ch "-")%N || Js.is_digit c then parse_number (c :: r)
          else parse_literal (c :: r)
      end
  end.

(** [JSON.parse(text)]: the value of a text that is one JSON value
    between optional white space, a SyntaxError otherwise. *)
Definition parse (text : jsstring) : completion value :=
  match parse_value (S (length text)) text with
  | Some (v, rest) =>
      match skip_ws rest with
      | [] => Return v
      | _ => Throw (SyntaxError "Unexpected non-whitespace character after JSON")
      end
  | None => Throw (SyntaxError "Unexpected token in JSON")
  end.

End JSON.

(** ** The world of the service

    What the service acts on: the file system it reads, the remote model
    behind [ai.models.generateContent], and the console together with the
    requests sent, recorded in order. *)

Inductive level := Log | Warn | Err.

(** A console call is recorded by the pieces it writes, in order: the
    literal chunks of a template and the values substituted or passed,
    before their conversion to text (for [JSON.stringify(x, null, 2)] the
    value [x]). *)
Inductive event :=
| Console (lvl : level) (pieces : list value)
| Request (prompt : jsstring).

Record world (M : Type) := World {
  fs : jsstring → completion jsstring;
  remote : M;
  trace : list event
}.
Arguments World {M} fs remote trace.
Arguments fs {M} w path.
Arguments remote {M} w.
Arguments trace {M} w.

(** A computation of the service: it may read and change the world, and
    returns or throws. *)
Definition IO (M A : Type) : Type := world M → completion A * world M.

Definition io_ret {M A} (a : A) : IO M A := λ w, (Return a, w).

Definition io_bind {M A B} (m : IO M A) (k : A → IO M B) : IO M B :=
  λ w, match m w with
       | (Return a, w') => k a w'
       | (Throw e, w') => (Throw e, w')
       end.

Definition io_throw {M A} (e : value) : IO M A := λ w, (Throw e, w).

(** A pure step that may throw. *)
Definition io_lift {M A} (c : completion A) : IO M A := λ w, (c, w).

(** [try { body } catch (error) { handler }] *)
Definition try_catch {M A} (body : IO M A) (handler : value → IO M A) : IO M A :=
  λ w, match body w with
       | (Return a, w') => (Return a, w')
       | (Throw e, w') => handler e w'
       end.

#[global] Instance io_mret {M} : MRet (IO M) := @io_ret M.
#[global] Instance io_mbind {M} : MBind (IO M) := λ A B k m, io_bind m k.

(** The text of a template literal, as its pieces: every substituted value
    is converted to text, which may throw. *)
Definition template (pieces : list value) : completion (list value) :=
  if forallb Js.stringifies pieces then Return pieces
  else Throw (TypeError "Cannot convert object to primitive value").

Definition console {M} (lvl : level) (pieces : list value) : IO M unit :=
  λ w, (Return tt, World (fs w) (remote w) (trace w ++ [Console lvl pieces])).

(** [await fs.readFile(filePath, 'utf8')] *)
Definition readFile {M} (filePath : jsstring) : IO M jsstring :=
  λ w, (fs w filePath, w).

Definition requests (t : list event) : list jsstring :=
  omap (λ e, match e with Request p => Some p | Console _ _ => None end) t.

(** ** The enrichment service *)

Record EnrichmentResult := {
  summary : value;
  keywords : list jsstring;
  category : value;
  sentiment : value
}.

(** The result of every path on which no enrichment is obtained. *)
Definition default_result : EnrichmentResult :=
  {| summary := VNull; keywords := []; category := VNull; sentiment := VNull |}.

Definition quoted (s : string) : jsstring := [DQUOTE] ++ lit s ++ [DQUOTE].

Definition prompt_head : jsstring :=
  lit "
    You are an expert content analyzer. For the following text, perform the following tasks:
    1. Summarize the content concisely, in about 2-3 sentences.
    2. Identify 5-7 main keywords or tags that accurately describe the content. Provide them as a comma-separated list.
    3. Categorize the content into one of these broad categories: Technology, Environment, Healthcare, Business, Education, Science, Arts & Culture, General. If none fit perfectly, use 'General'.
    4. Based on the overall tone, assign a sentiment: Positive, Neutral, or Negative.

    Provide the output in a JSON format with keys: "
  ++ quoted "summary" ++ lit ", " ++ quoted "keywords" ++ lit ", "
  ++ quoted "category" ++ lit ", " ++ quoted "sentiment" ++ lit ".

    Content:
    ---
    ".

Definition prompt_tail : jsstring :=
  lit "
    ---
    ".

(** The text of a value known to be text. *)
Definition text_of (v : value) : jsstring :=
  match v with VString s => s | _ => [] end.

(** The prompt: the instructions with the content in their middle. *)
Definition prompt_of (content : value) : jsstring :=
  prompt_head ++ text_of content ++ prompt_tail.

(** Where the text of the first candidate sits in a response. *)
Definition candidate_text : list jsstring :=
  [lit "candidates"; lit "0"; lit "content"; lit "parts"; lit "0"; lit "text"].

(** The condition of the response check: no text candidate. *)
Definition no_text_candidate (result : value) : completion bool :=
  let not_ (c : completion value) := c ≫= (λ v, Return (negb (Js.truthy v))) in
  let empty (c : completion value) := c ≫= (λ v, Return (Js.is_zero v)) in
  let or_ (a b : completion bool) :=
    a ≫= (λ x : bool, if x then Return true else b) in
  let r := Js.path result in
  or_ (not_ (r []))
  (or_ (not_ (r [lit "candidates"]))
  (or_ (empty (r [lit "candidates"; lit "length"]))
  (or_ (not_ (r [lit "candidates"; lit "0"; lit "content"]))
  (or_ (not_ (r [lit "candidates"; lit "0"; lit "content"; lit "parts"]))
  (or_ (empty (r [lit "candidates"; lit "0"; lit "content"; lit "parts";
                  lit "length"]))
       (not_ (r [lit "candidates"; lit "0"; lit "content"; lit "parts";
                 lit "0"; lit "text"]))))))).

(** [text.replace(...)]: a method of texts only. *)
Definition replace_method (text : value) : completion jsstring :=
  match text with
  | VString s => Return (Js.replace_fences s)
  | _ => Throw (TypeError "text.replace is not a function")
  end.

(** [keywords.split(',').map(k => k.trim())]: a method of texts only. *)
Definition split_method (keywords : value) : completion (list jsstring) :=
  match keywords with
  | VString s => Return (Js.trim <$> Js.split s COMMA)
  | _ => Throw (TypeError "parsedResult.keywords.split is not a function")
  end.

(** The object returned on success, built from the parsed payload. *)
Definition normalize (parsedResult : value) : completion EnrichmentResult :=
  s ← Js.get parsedResult (lit "summary");
  k ← Js.get parsedResult (lit "keywords");
  ks ← (if Js.truthy k then
          k' ← Js.get parsedResult (lit "keywords"); split_method k'
        else Return []);
  c ← Js.get parsedResult (lit "category");
  t ← Js.get parsedResult (lit "sentiment");
  Return {| summary := Js.or s VNull; keywords := ks;
            category := Js.or c VNull; sentiment := Js.or t VNull |}.

(** [a && b] on values already read. *)
Definition and_then (a : value) (b : completion value) : completion value :=
  if Js.truthy a then b else Return a.

(** Lines 126-130: the text from the first opening brace to the last
    closing brace, when both exist and the second follows the first. *)
Definition json_text (cleanedText : jsstring) : option jsstring :=
  let jsonStartIndex := Js.indexOf cleanedText LBRACE in
  let jsonEndIndex := Js.lastIndexOf cleanedText RBRACE in
  if negb (jsonStartIndex =? -1)%Z && negb (jsonEndIndex =? -1)%Z
     && (jsonStartIndex <? jsonEndIndex)%Z
  then Some (Js.substring cleanedText jsonStartIndex (jsonEndIndex + 1))
  else None.

(** Lines 124-136: the JSON text embedded in the response, parsed. *)
Definition parse_response {M} (objectId text : value) : IO M value :=
  replaced ← io_lift (replace_method text);
  let cleanedText := Js.trim replaced in
  jsonString ←
    match json_text cleanedText with
    | Some jsonString => mret jsonString
    | None =>
        msg ← io_lift (template
          [VString (lit "Debug: Could not find valid JSON boundaries in Gemini response for ");
           objectId; VString (lit ": " ++ [DQUOTE]);
           VString (Js.substring cleanedText 0 200);
           VString (lit "..." ++ [DQUOTE])]);
        _ ← console Warn msg;
        io_throw (Error (lit "Could not find valid JSON in Gemini response: "
                           ++ cleanedText))
    end;
  io_lift (JSON.parse jsonString).

(** Lines 124-144: from the text of the response to the result. *)
Definition extract {M} (objectId text : value) : IO M EnrichmentResult :=
  parsedResult ← parse_response objectId text;
  msg ← io_lift (template
    [VString (lit "Enrichment successful for ID: "); objectId]);
  _ ← console Log msg;
  io_lift (normalize parsedResult).

(** Lines 107-120: the text of the first candidate of a response, or the
    error of a response without one. *)
Definition response_text {M} (objectId result : value) : IO M value :=
  missing ← io_lift (no_text_candidate result);
  if missing : bool then
    msg ← io_lift (template
      [VString (lit "Debug: Unexpected API response structure for ");
       objectId; VString (lit ":")]);
    _ ← console Err (msg ++ [result]);
    feedback ← io_lift (and_then result (
      pf ← Js.get result (lit "promptFeedback");
      and_then pf (Js.get pf (lit "safetyRatings"))));
    _ ← (if Js.truthy feedback then
           msg ← io_lift (template
             [VString (lit "Debug: Prompt feedback safety ratings for ");
              objectId; VString (lit ":")]);
           ratings ← io_lift (Js.path result
             [lit "promptFeedback"; lit "safetyRatings"]);
           console Err (msg ++ [ratings])
         else mret tt);
    io_throw (Error (lit "Gemini API did not return a valid text candidate."))
  else
    io_lift (Js.path result candidate_text).

Section Service.

Context {M : Type}.

(** [ai.models.generateContent]: the outcome for a prompt depends on the
    state of the remote model, which the call may change.  The request
    is [{model: MODEL_NAME, contents: [{role: "user", parts: [{text:
    prompt}]}]}]; only the prompt varies. *)
Variable generateContent : jsstring → M → completion value * M.

Definition call_model (prompt : jsstring) : IO M value :=
  λ w, let '(c, m) := generateContent prompt (remote w) in
       (c, World (fs w) m (trace w ++ [Request prompt])).

(** The [try] block of [enrichContentWithAI] (lines 99-144). *)
Definition enrich_attempt (prompt : jsstring) (objectId : value)
  : IO M EnrichmentResult :=
  msg ← io_lift (template
    [VString (lit "Sending content for enrichment (ID: "); objectId;
     VString (lit ")...")]);
  _ ← console Log msg;
  result ← call_model prompt;
  text ← response_text objectId result;
  extract objectId text.

(** Its [catch] block (lines 145-154). *)
Definition enrich_recover (objectId error : value) : IO M EnrichmentResult :=
  msg ← io_lift (template
    [VString (lit "Error enriching content for objectID "); objectId;
     VString (lit ":")]);
  message ← io_lift (Js.get error (lit "message"));
  _ ← console Err (msg ++ [message]);
  mret default_result.

Definition enrichContentWithAI (content objectId : value)
  : IO M EnrichmentResult :=
  if negb (Js.truthy content)
     || negb (bool_decide (Js.typeof content = lit "string"))
  then
    msg ← io_lift (template
      [VString (lit "Skipping enrichment for objectID "); objectId;
       VString (lit ": Invalid content provided.")]);
    _ ← console Warn msg;
    mret default_result
  else
    let prompt := prompt_of content in
    try_catch (enrich_attempt prompt objectId) (enrich_recover objectId).

(** The record pushed for one article: its own properties, then the four
    [ai_*] properties. *)
Definition enriched (article : value) (enrichment : EnrichmentResult) : value :=
  VObject (<[lit "ai_sentiment" := sentiment enrichment]>
          (<[lit "ai_category" := category enrichment]>
          (<[lit "ai_keywords" := VArray (VString <$> keywords enrichment)]>
          (<[lit "ai_summary" := summary enrichment]>
          (Js.spread article))))).

(** The [for...of] loop of [processArticles]: [enrichedArticles] is the
    array built so far. *)
Fixpoint enrich_each (articles enrichedArticles : list value)
  : IO M (list value) :=
  match articles with
  | [] => mret enrichedArticles
  | article :: rest =>
      content ← io_lift (Js.get article (lit "content"));
      objectID ← io_lift (Js.get article (lit "objectID"));
      enrichment ← enrichContentWithAI content objectID;
      enrich_each rest (enrichedArticles ++ [enriched article enrichment])
  end.

Definition processArticles (filePath : jsstring) : IO M (list value) :=
  try_catch
    (fileContent ← readFile filePath;
     articles ← io_lift (JSON.parse fileContent);
     items ← io_lift (Js.iterate articles);
     enrich_each items [])
    (λ error,
       _ ← console Err [VString (lit "Error processing articles from ");
                        VString filePath; VString (lit ":"); error];
       mret []).

End Service.

(** ** The trial run

    [testEnrichment] (lines 183-202) runs the batch and prints every
    enriched record; nothing catches what it raises. *)

(** [v === null] *)
Definition is_null (v : value) : bool :=
  match v with VNull => true | _ => false end.

(** The pieces of [l.join(sep)]: the elements with the separator between
    them, [undefined] and [null] standing for the empty text. *)
Fixpoint join_pieces (l : list value) (sep : jsstring) : list value :=
  match l with
  | [] => []
  | x :: r =>
      let piece :=
        if is_null x || bool_decide (Js.typeof x = lit "undefined")
        then VString [] else x in
      match r with
      | [] => [piece]
      | _ => piece :: VString sep :: join_pieces r sep
      end
  end.

(** [v.join(sep)]: a method of arrays only; reading it from [undefined]
    or [null] throws as every property read does. *)
Definition join_method (v : value) (sep : jsstring) : completion (list value) :=
  match v with
  | VArray l => Return (join_pieces l sep)
  | VUndefined | VNull => Js.get v (lit "join") ≫= λ _, Return []
  | _ => Throw (TypeError "article.ai_keywords.join is not a function")
  end.

(** The callback of [forEach] (lines 192-198). *)
Definition show_article {M} (article : value) : IO M unit :=
  objectID ← io_lift (Js.get article (lit "objectID"));
  msg ← io_lift (template [VString (lit "ID: "); objectID]);
  _ ← console Log msg;
  title ← io_lift (Js.get article (lit "title"));
  msg ← io_lift (template [VString (lit "Title: "); title]);
  _ ← console Log msg;
  ai_summary ← io_lift (Js.get article (lit "ai_summary"));
  msg ← io_lift (template [VString (lit "AI Summary: "); ai_summary]);
  _ ← console Log msg;
  ai_keywords ← io_lift (Js.get article (lit "ai_keywords"));
  joined ← io_lift (join_method ai_keywords (lit ", "));
  msg ← io_lift (template (VString (lit "AI Keywords: ") :: joined));
  _ ← console Log msg;
  ai_category ← io_lift (Js.get article (lit "ai_category"));
  msg ← io_lift (template [VString (lit "AI Category: "); ai_category]);
  _ ← console Log msg;
  ai_sentiment ← io_lift (Js.get article (lit "ai_sentiment"));
  msg ← io_lift (template [VString (lit "AI Sentiment: "); ai_sentiment]);
  _ ← console Log msg;
  console Log [VString (lit "---")].

(** [l.forEach(f)] *)
Fixpoint forEach {M} (l : list value) (f : value → IO M unit) : IO M unit :=
  match l with
  | [] => mret tt
  | x :: r => _ ← f x; forEach r f
  end.

Section Trial.

Context {M : Type}.
Variable generateContent : jsstring → M → completion value * M.

Definition testEnrichment : IO M unit :=
  _ ← console Log [VString (lit "Testing AI enrichment process...")];
  let sampleFilePath := lit "./data/articles.json" in
  enrichedData ← processArticles generateContent sampleFilePath;
  _ ← console Log [VString (LF :: lit "--- Enriched Data Sample ---")];
  _ ← (if bool_decide (length enrichedData = 0) then
         console Log
           [VString (lit "No enriched data returned. Check for errors above.")]
       else forEach enrichedData show_article);
  console Log [VString (LF :: lit "Testing complete.")].

End Trial.

(** ** The indexing script

    [indexEnrichedData] (lines 12-58) hands the enriched records to the
    search index and waits for the indexing task. *)

Definition ALGOLIA_INDEX_NAME : jsstring := lit "articles_enriched_by_ai".

(** The calls made to the index client, with the arguments that vary. *)
Inductive call :=
| SaveObjects (indexName : jsstring) (objects : list value)
| WaitForTask (indexName : jsstring) (taskID : value).

(** The remote services: the model, the index, and the calls the index
    has received, in order. *)
Record backend (M A : Type) := Backend {
  model : M;
  index : A;
  calls : list call
}.
Arguments Backend {M A} model index calls.
Arguments model {M A} b.
Arguments index {M A} b.
Arguments calls {M A} b.

Section Publisher.

Context {M A : Type}.

Variable generateContent : jsstring → M → completion value * M.

(** [client.saveObjects] and [client.waitForTask]: their outcome depends
    on the objects, or the task, and on the state of the index, which they
    may change. *)
Variable saveObjects : list value → A → completion value * A.
Variable waitForTask : value → A → completion value * A.

(** The model, as one of the remote services. *)
Definition generate (prompt : jsstring) (b : backend M A)
  : completion value * backend M A :=
  let '(c, m) := generateContent prompt (model b) in
  (c, Backend m (index b) (calls b)).

Definition client_saveObjects (objects : list value)
  : IO (backend M A) value :=
  λ w, let '(c, a) := saveObjects objects (index (remote w)) in
       (c, World (fs w)
             (Backend (model (remote w)) a
                (calls (remote w)
                 ++ [SaveObjects ALGOLIA_INDEX_NAME objects]))
             (trace w)).

Definition client_waitForTask (taskID : value) : IO (backend M A) value :=
  λ w, let '(c, a) := waitForTask taskID (index (remote w)) in
       (c, World (fs w)
             (Backend (model (remote w)) a
                (calls (remote w)
                 ++ [WaitForTask ALGOLIA_INDEX_NAME taskID]))
             (trace w)).

(** The [try] block of [indexEnrichedData] (lines 15-47). *)
Definition index_attempt : IO (backend M A) unit :=
  let articlesFilePath := lit "./data/articles.json" in
  enrichedArticles ← processArticles generate articlesFilePath;
  if bool_decide (length enrichedArticles = 0) then
    console Warn
      [VString (lit "No articles were enriched. Nothing to index.")]
  else
    _ ← console Log
          [VString (lit "Successfully enriched ");
           VNumber (Js.number_of_nat (length enrichedArticles));
           VString (lit " articles. Now indexing to Algolia...")];
    saveObjectsResponse ← client_saveObjects enrichedArticles;
    taskID ← io_lift (Js.path saveObjectsResponse [lit "0"; lit "taskID"]);
    _ ← (if bool_decide (Js.typeof taskID = lit "undefined") || is_null taskID
         then
           _ ← console Err
                 [VString (lit "Error: taskID was not returned by client.saveObjects. Check Algolia API response structure.")];
           _ ← console Err
                 [VString (lit "saveObjectsResponse:"); saveObjectsResponse];
           io_throw (Error (lit "Algolia indexing task ID missing."))
         else mret tt);
    msg ← io_lift (template
      [VString (lit "Indexing task "); taskID;
       VString (lit " submitted. Waiting for task to complete...")]);
    _ ← console Log msg;
    _ ← client_waitForTask taskID;
    _ ← console Log
          [VString (lit "Successfully indexed articles to Algolia index: ");
           VString ALGOLIA_INDEX_NAME];
    _ ← console Log
          [VString (LF :: lit "Verification: Go to your Algolia dashboard, navigate to the '");
           VString ALGOLIA_INDEX_NAME;
           VString (lit "' index, and inspect the records.")];
    console Log
      [VString (lit "Look for 'ai_summary', 'ai_keywords', 'ai_category', and 'ai_sentiment' attributes.")].

(** Its [catch] block (lines 49-57). *)
Definition index_recover (error : value) : IO (backend M A) unit :=
  _ ← console Err
        [VString (lit "Error during data enrichment or Algolia indexing:");
         error];
  status ← io_lift (Js.get error (lit "status"));
  both ← io_lift (and_then status (Js.get error (lit "message")));
  _ ← (if Js.truthy both then
         status ← io_lift (Js.get error (lit "status"));
         message ← io_lift (Js.get error (lit "message"));
         msg ← io_lift (template
           [VString (lit "Algolia API Error: Status "); status;
            VString (lit " - "); message]);
         console Err msg
       else mret tt);
  details ← io_lift (Js.get error (lit "details"));
  if Js.truthy details then
    details ← io_lift (Js.get error (lit "details"));
    console Err [VString (lit "Algolia Error Details:"); details]
  else mret tt.

Definition indexEnrichedData : IO (backend M A) unit :=
  _ ← console Log
        [VString (lit "Starting data enrichment and indexing to Algolia index: ");
         VString ALGOLIA_INDEX_NAME];
  try_catch index_attempt index_recover.

End Publisher.


(** ** Vocabulary of the properties *)

(** A text without braces. *)
Definition brace_free (s : jsstring) : Prop := (LBRACE ∉ s) ∧ (RBRACE ∉ s).

(** A payload decorated with a fenced code block. *)
Definition fenced (p : jsstring) : jsstring :=
  Js.fence_open ++ p ++ Js.fence_close.

(** [l.join(sep)] for a one-unit separator. *)
Fixpoint join (l : list jsstring) (sep : N) : jsstring :=
  match l with
  | [] => []
  | x :: r => match r with [] => x | _ => x ++ sep :: join r sep end
  end.

(** A parser of one value each result of which [parse_value] gives again
    with any fuel not below the number of units consumed. *)
Definition reproduced (pv : jsstring → option (value * jsstring)) : Prop :=
  ∀ s v r, pv s = Some (v, r) →
    length r < length s
    ∧ ∀ n, length s - length r ≤ n → JSON.parse_value n s = Some (v, r).

(** The field [k] of a payload, [undefined] when it is missing. *)
Definition field (o : gmap jsstring value) (k : string) : value :=
  default VUndefined (o !! lit k).

(** An error value one can read the message of: anything but [undefined]
    and [null]. *)
Definition readable (e : value) : Prop := e ≠ VUndefined ∧ e ≠ VNull.




(** The outcome of a model call is a function of the prompt. *)
Definition deterministic {M}
    (generateContent : jsstring → M → completion value * M) : Prop :=
  ∀ prompt m1 m2,
    (generateContent prompt m1).1 = (generateContent prompt m2).1.

(** Two worlds in which the source holds the same content. *)
Definition same_source {M} (path : jsstring) (w1 w2 : world M) : Prop :=
  fs w1 path = fs w2 path.

(** A computation whose outcome depends on the world through the content
    of the source only, and which leaves the source alone. *)
Definition stable {M} (path : jsstring) {A} (m : IO M A) : Prop :=
  ∀ w1 w2, same_source path w1 w2 →
    (m w1).1 = (m w2).1 ∧ same_source path (m w1).2 w1.





(** What [processArticles] writes when it catches [error]. *)
Definition load_error_log (filePath : jsstring) (error : value) : event :=
  Console Err [VString (lit "Error processing articles from ");
               VString filePath; VString (lit ":"); error].

(** A parsed source that [for...of] cannot iterate. *)
Definition not_iterable (v : value) : Prop :=
  match v with
  | VArray _ | VString _ => False
  | _ => True
  end.

(** The model answers the prompt with a response whose first candidate
    carries the text [t]. *)
Definition responds_with {M}
    (generateContent : jsstring → M → completion value * M)
    (prompt : jsstring) (m : M) (t : jsstring) (m' : M) : Prop :=
  ∃ result,
    generateContent prompt m = (Return result, m')
    ∧ no_text_candidate result = Return false
    ∧ Js.path result candidate_text = Return (VString t).

(** A computation that reaches no remote service: it leaves the file
    system and the remote state as they are and sends no request. *)
Definition silent {M A} (m : IO M A) : Prop :=
  ∀ w, fs (m w).2 = fs w
       ∧ remote (m w).2 = remote w
       ∧ requests (trace (m w).2) = requests (trace w).

(** A computation that sends one request, with this prompt, to the model,
    and leaves the file system as it is. *)
Definition sends {M A}
    (generateContent : jsstring → M → completion value * M)
    (prompt : jsstring) (m : IO M A) : Prop :=
  ∀ w, requests (trace (m w).2) = requests (trace w) ++ [prompt]
       ∧ remote (m w).2 = (generateContent prompt (remote w)).2
       ∧ fs (m w).2 = fs w.

(** A content that is enriched: a text that is not empty. *)
Definition usable (content : value) : bool :=
  match content with
  | VString (_ :: _) => true
  | _ => false
  end.



(** A text without white space at either end. *)
Definition trimmed (s : jsstring) : Prop :=
  Js.trimStart s = s ∧ Js.trimEnd s = s.

(** A computation that leaves the index alone: its state, and the list
    of the calls it has received. *)
Definition off_index {M A B} (m : IO (backend M A) B) : Prop :=
  ∀ w, index (remote (m w).2) = index (remote w)
       ∧ calls (remote (m w).2) = calls (remote w).

(** An error the [catch] block of [indexEnrichedData] can report: its
    properties can be read, and its status and message, when both are
    there, convert to text. *)
Definition reportable (e : value) : Prop :=
  readable e
  ∧ ∀ status message,
      Js.get e (lit "status") = Return status →
      Js.get e (lit "message") = Return message →
      Js.truthy status = true → Js.truthy message = true →
      Js.stringifies status = true ∧ Js.stringifies message = true.

(** The index rejects with errors of that kind only. *)
Definition rejects_reportably {X A}
    (f : X → A → completion value * A) : Prop :=
  ∀ x a e a', f x a = (Throw e, a') → reportable e.

(** What [indexEnrichedData] writes first. *)
Definition index_start_log : event :=
  Console Log
    [VString (lit "Starting data enrichment and indexing to Algolia index: ");
     VString ALGOLIA_INDEX_NAME].


(** ** Sample data *)

Definition articles_path : jsstring := lit "./data/articles.json".

(** A response whose first candidate carries [text]. *)
Definition response_with (text : value) : value :=
  VObject {[ lit "candidates" :=
    VArray [VObject {[ lit "content" :=
      VObject {[ lit "parts" :=
        VArray [VObject {[ lit "text" := text ]}] ]} ]}] ]}.

(** A model that answers every prompt with the same text and counts the
    requests it has served. *)
Definition answering (text : jsstring)
  : jsstring → nat → completion value * nat :=
  λ _ served, (Return (response_with (VString text)), S served).


(** A world whose only file is the articles file. *)
Definition disk (content : jsstring) : world nat :=
  World (λ p, if bool_decide (p = articles_path) then Return content
              else Throw (Error (lit "ENOENT: no such file or directory")))
        0 [].

(** An answer in prose, without any JSON. *)
Definition prose : jsstring := lit "I cannot summarize this.".

Definition enoent : value :=
  Error (lit "ENOENT: no such file or directory").

Definition empty_disk : world nat := World (λ _, Throw enoent) 0 [].

(** The one record of the sample source below. *)
Definition solar_record : value :=
  VObject (<[lit "objectID" := VString (lit "1")]>
          (<[lit "content" :=
               VString (lit "Solar panel costs fell 30% this year.")]> ∅)).

(** A source that is a single record, not a collection. *)
Definition single_article : jsstring :=
  json_lit "{'objectID':'1','content':'Solar panel costs fell 30% this year.'}".

Definition solar_articles : jsstring :=
  json_lit "[{'objectID':'1','content':'Solar panel costs fell 30% this year.'}]".

Definition solar_payload : jsstring :=
  json_lit "{'summary':'Solar costs dropped.','keywords':'solar,energy,cost','category':'Environment','sentiment':'Positive'}".

(** A response text whose payload has a [keywords] field that is present,
    not a text, and falsy. *)
Definition no_keywords_payload : jsstring :=
  json_lit "{'summary':'S','keywords':false,'category':'Technology','sentiment':'Positive'}".

(** A response text whose payload lists its keywords in an array. *)
Definition listed_keywords_payload : jsstring :=
  json_lit "{'summary':'S','keywords':['solar','energy'],'category':'Technology','sentiment':'Positive'}".

Definition listed_keywords : value :=
  VArray [VString (lit "solar"); VString (lit "energy")].

Definition listed_keywords_parsed : value :=
  VObject (<[lit "summary" := VString (lit "S")]>
          (<[lit "keywords" := listed_keywords]>
          (<[lit "category" := VString (lit "Technology")]>
          (<[lit "sentiment" := VString (lit "Positive")]> ∅)))).

Definition solar_content : jsstring :=
  lit "Solar panel costs fell 30% this year.".


(** A parsed payload whose category is outside the labels of the prompt
    and whose sentiment is missing. *)
Definition cooking_payload : gmap jsstring value :=
  <[lit "summary" := VString (lit "S")]>
  (<[lit "keywords" := VString (lit "a, b")]>
  (<[lit "category" := VString (lit "Cooking")]> ∅)).

Definition solar_result : EnrichmentResult :=
  {| summary := VString (lit "Solar costs dropped.");
     keywords := [lit "solar"; lit "energy"; lit "cost"];
     category := VString (lit "Environment");
     sentiment := VString (lit "Positive") |}.


(** A source that is one JSON text. *)
Definition text_source : jsstring := json_lit "'ab'".

(** An index that accepts every batch and answers with task 7, and one
    that answers without a task. *)
Definition task_response (taskID : value) : value :=
  VArray [VObject {[ lit "taskID" := taskID ]}].

Definition accepting (taskID : value)
  : list value → nat → completion value * nat :=
  λ _ batches, (Return (task_response taskID), S batches).

(** An index whose tasks complete. *)
Definition completing : value → nat → completion value * nat :=
  λ _ batches, (Return VUndefined, batches).

Definition task_7 : value := VNumber (Js.number_of_nat 7).

(** The world of [disk], with a model and an index. *)
Definition site (content : jsstring) : world (backend nat nat) :=
  World (fs (disk content)) (Backend 0 0 []) [].

Definition solar_parsed : value :=
  VObject (<[lit "summary" := VString (lit "Solar costs dropped.")]>
          (<[lit "keywords" := VString (lit "solar,energy,cost")]>
          (<[lit "category" := VString (lit "Environment")]>
          (<[lit "sentiment" := VString (lit "Positive")]> ∅)))).

Definition cooking_result : EnrichmentResult :=
  {| summary := VString (lit "S");
     keywords := [lit "a"; lit "b"];
     category := VString (lit "Cooking");
     sentiment := VNull |}.




(** A value that does not convert to text: an object with a property
    named [toString] that is not a function. *)
Definition unprintable_id : value :=
  VObject (<[lit "toString" := VString (lit "x")]> ∅).




(** * Properties *)

(** ** Texts: positions and slices *)

Section Positions.

Implicit Types (s pre suf : jsstring) (c : N).

Lemma indexOf_bounds s c :
  (-1 ≤ Js.indexOf s c < Z.of_nat (length s))%Z.
Proof.
  induction s as [|x r IH]; cbn [Js.indexOf length]; [lia|].
  destruct (N.eqb_spec x c); [lia|].
  destruct (Z.eqb_spec (Js.indexOf r c) (-1)); lia.
Qed.

Lemma lastIndexOf_bounds s c :
  (-1 ≤ Js.lastIndexOf s c < Z.of_nat (length s))%Z.
Proof.
  induction s as [|x r IH]; cbn [Js.lastIndexOf length]; [lia|].
  destruct (Z.eqb_spec (Js.lastIndexOf r c) (-1)); [|lia].
  destruct (N.eqb_spec x c); lia.
Qed.

(** -1 is the answer exactly when the unit does not occur. *)
Lemma indexOf_absent s c : Js.indexOf s c = (-1)%Z ↔ c ∉ s.
Proof.
  induction s as [|x r IH]; cbn [Js.indexOf].
  - split; [intros _; apply not_elem_of_nil | done].
  - rewrite not_elem_of_cons. pose proof (indexOf_bounds r c).
    destruct (N.eqb_spec x c) as [->|Hne].
    + split; [lia | intros [? _]; done].
    + destruct (Z.eqb_spec (Js.indexOf r c) (-1)) as [E|E].
      * split; [intros _; split; [done | by apply IH] | done].
      * split; [lia | intros [_ ?]; destruct E; by apply IH].
Qed.

Lemma lastIndexOf_absent s c : Js.lastIndexOf s c = (-1)%Z ↔ c ∉ s.
Proof.
  induction s as [|x r IH]; cbn [Js.lastIndexOf].
  - split; [intros _; apply not_elem_of_nil | done].
  - rewrite not_elem_of_cons. pose proof (lastIndexOf_bounds r c).
    destruct (Z.eqb_spec (Js.lastIndexOf r c) (-1)) as [E|E].
    + destruct (N.eqb_spec x c) as [->|Hne].
      * split; [lia | intros [? _]; done].
      * split; [intros _; split; [done | by apply IH] | done].
    + split; [lia | intros [_ ?]; destruct E; by apply IH].
Qed.

(** A found position is that of the first occurrence. *)
Lemma indexOf_first s c :
  (0 ≤ Js.indexOf s c)%Z →
  ∃ pre post, s = pre ++ c :: post ∧ (c ∉ pre)
              ∧ (Z.of_nat (length pre) = Js.indexOf s c).
Proof.
  induction s as [|x r IH]; cbn [Js.indexOf]; [lia|].
  destruct (N.eqb_spec x c) as [->|Hne].
  - intros _. exists [], r. split_and!; [done | apply not_elem_of_nil | done].
  - destruct (Z.eqb_spec (Js.indexOf r c) (-1)) as [E|E]; [lia|].
    pose proof (indexOf_bounds r c). intros _.
    destruct IH as (pre & post & -> & Hpre & Hlen); [lia|].
    exists (x :: pre), post. split_and!; [done | | cbn [length]; lia].
    rewrite not_elem_of_cons. split; [congruence | done].
Qed.

(** A found position is that of the last occurrence. *)
Lemma lastIndexOf_last s c :
  (0 ≤ Js.lastIndexOf s c)%Z →
  ∃ pre post, s = pre ++ c :: post ∧ (c ∉ post)
              ∧ (Z.of_nat (length pre) = Js.lastIndexOf s c).
Proof.
  induction s as [|x r IH]; cbn [Js.lastIndexOf]; [lia|].
  pose proof (lastIndexOf_bounds r c).
  destruct (Z.eqb_spec (Js.lastIndexOf r c) (-1)) as [E|E].
  - destruct (N.eqb_spec x c) as [->|Hne]; [|lia].
    intros _. exists [], r. split_and!; [done | by apply lastIndexOf_absent | done].
  - intros _. destruct IH as (pre & post & -> & Hpost & Hlen); [lia|].
    exists (x :: pre), post. split_and!; [done | done | cbn [length]; lia].
Qed.

Lemma indexOf_app_l pre s c :
  c ∉ pre →
  Js.indexOf (pre ++ s) c =
    if (Js.indexOf s c =? -1)%Z then (-1)%Z
    else (Z.of_nat (length pre) + Js.indexOf s c)%Z.
Proof.
  induction pre as [|x pre IH]; intros Hpre.
  - cbn [app length]. destruct (Z.eqb_spec (Js.indexOf s c) (-1)); lia.
  - apply not_elem_of_cons in Hpre as [Hx Hpre].
    cbn [app Js.indexOf length]. rewrite IH by done.
    destruct (N.eqb_spec x c); [congruence|].
    pose proof (indexOf_bounds s c).
    destruct (Z.eqb_spec (Js.indexOf s c) (-1)); [done|].
    destruct (Z.eqb_spec (Z.of_nat (length pre) + Js.indexOf s c) (-1)); lia.
Qed.

Lemma indexOf_app_r s suf c :
  c ∉ suf → Js.indexOf (s ++ suf) c = Js.indexOf s c.
Proof.
  intros Hsuf. induction s as [|x r IH]; cbn [app Js.indexOf].
  - by apply indexOf_absent.
  - by rewrite IH.
Qed.

Lemma lastIndexOf_app_l pre s c :
  c ∉ pre →
  Js.lastIndexOf (pre ++ s) c =
    if (Js.lastIndexOf s c =? -1)%Z then (-1)%Z
    else (Z.of_nat (length pre) + Js.lastIndexOf s c)%Z.
Proof.
  induction pre as [|x pre IH]; intros Hpre.
  - cbn [app length]. destruct (Z.eqb_spec (Js.lastIndexOf s c) (-1)); lia.
  - apply not_elem_of_cons in Hpre as [Hx Hpre].
    cbn [app Js.lastIndexOf length]. rewrite IH by done.
    pose proof (lastIndexOf_bounds s c).
    destruct (Z.eqb_spec (Js.lastIndexOf s c) (-1)).
    + cbn. destruct (N.eqb_spec x c); [congruence | done].
    + destruct (Z.eqb_spec (Z.of_nat (length pre) + Js.lastIndexOf s c) (-1));
        lia.
Qed.

Lemma lastIndexOf_app_r s suf c :
  c ∉ suf → Js.lastIndexOf (s ++ suf) c = Js.lastIndexOf s c.
Proof.
  intros Hsuf. induction s as [|x r IH]; cbn [app Js.lastIndexOf].
  - by apply lastIndexOf_absent.
  - by rewrite IH.
Qed.

(** [substring] between two positions in order is the plain slice. *)
Lemma substring_slice s (a b : nat) :
  a ≤ b ≤ length s →
  Js.substring s (Z.of_nat a) (Z.of_nat b) = take (b - a) (drop a s).
Proof.
  intros H. unfold Js.substring. cbv zeta.
  replace (Z.min (Z.max (Z.of_nat a) 0) (Z.of_nat (length s)))
    with (Z.of_nat a) by lia.
  replace (Z.min (Z.max (Z.of_nat b) 0) (Z.of_nat (length s)))
    with (Z.of_nat b) by lia.
  replace (Z.min (Z.of_nat a) (Z.of_nat b)) with (Z.of_nat a) by lia.
  replace (Z.max (Z.of_nat a) (Z.of_nat b)) with (Z.of_nat b) by lia.
  by rewrite <- Nat2Z.inj_sub, !Nat2Z.id by lia.
Qed.

Lemma substring_prefix s (n : nat) :
  Js.substring s 0 (Z.of_nat n) = take n s.
Proof.
  destruct (decide (n ≤ length s)) as [H|H].
  - change 0%Z with (Z.of_nat 0). rewrite substring_slice by lia.
    by rewrite drop_0, Nat.sub_0_r.
  - rewrite (take_ge s n) by lia.
    rewrite <- (take_ge s (length s)) at 2 by lia.
    unfold Js.substring. cbv zeta.
    replace (Z.min (Z.max 0 0) (Z.of_nat (length s))) with 0%Z by lia.
    replace (Z.min (Z.max (Z.of_nat n) 0) (Z.of_nat (length s)))
      with (Z.of_nat (length s)) by lia.
    replace (Z.min 0 (Z.of_nat (length s))) with 0%Z by lia.
    replace (Z.max 0 (Z.of_nat (length s))) with (Z.of_nat (length s)) by lia.
    by rewrite Z.sub_0_r, Nat2Z.id.
Qed.

Lemma substring_app s pre suf (a b : Z) :
  (0 ≤ a ≤ b)%Z → (b ≤ Z.of_nat (length s))%Z →
  Js.substring (pre ++ s ++ suf)
    (Z.of_nat (length pre) + a) (Z.of_nat (length pre) + b)
  = Js.substring s a b.
Proof.
  intros Ha Hb.
  rewrite <- (Z2Nat.id a), <- (Z2Nat.id b), <- !Nat2Z.inj_add by lia.
  rewrite !substring_slice by (rewrite ?length_app; lia).
  rewrite drop_app_ge, drop_app_le by lia.
  rewrite take_app_le by (rewrite length_drop; lia).
  f_equal; [lia|]. f_equal. lia.
Qed.

End Positions.

(** ** The JSON text embedded in a response *)

Section Embedded.

Implicit Types (s t p pre suf : jsstring).

Lemma brace_free_nil : brace_free [].
Proof. split; apply not_elem_of_nil. Qed.

Lemma brace_free_spaces s : Forall (λ c, Js.is_space c = true) s → brace_free s.
Proof.
  intros H. split; intros Hin;
    eapply Forall_forall in H; try exact Hin; vm_compute in H; done.
Qed.

Lemma brace_free_fence_open : brace_free Js.fence_open.
Proof. split; by apply (bool_decide_unpack _). Qed.

Lemma brace_free_fence_close : brace_free Js.fence_close.
Proof. split; by apply (bool_decide_unpack _). Qed.

(** What [json_text] finds, told by the shape of the text. *)
Lemma json_text_Some s j :
  json_text s = Some j →
  ∃ pre mid post,
    s = pre ++ LBRACE :: mid ++ RBRACE :: post
    ∧ (LBRACE ∉ pre) ∧ (RBRACE ∉ post)
    ∧ j = LBRACE :: mid ++ [RBRACE].
Proof.
  unfold json_text. cbv zeta.
  pose proof (indexOf_bounds s LBRACE) as Hi.
  pose proof (lastIndexOf_bounds s RBRACE) as Hj.
  destruct (Z.eqb_spec (Js.indexOf s LBRACE) (-1)) as [|Hi']; [done|].
  destruct (Z.eqb_spec (Js.lastIndexOf s RBRACE) (-1)) as [|Hj']; [done|].
  destruct (Z.ltb_spec (Js.indexOf s LBRACE) (Js.lastIndexOf s RBRACE))
    as [Hlt|]; [|done].
  cbn [negb andb]. intros [= <-].
  destruct (indexOf_first s LBRACE) as (pre & post1 & Hs1 & Hpre & Hlen1); [lia|].
  destruct (lastIndexOf_last s RBRACE) as (pre2 & post & Hs2 & Hpost & Hlen2); [lia|].
  rewrite <- Hlen1, <- Hlen2 in *.
  set (mid := take (length pre2 - length pre - 1) post1).
  assert (Hpre2 : pre2 = pre ++ LBRACE :: mid).
  { transitivity (take (length pre2) s).
    - rewrite Hs2 at 1. by rewrite take_app_length.
    - rewrite Hs1 at 1. rewrite take_app_ge by lia.
      f_equal.
      replace (length pre2 - length pre) with (S (length pre2 - length pre - 1)) by lia.
      done. }
  exists pre, mid, post. split_and!; [| done | done |].
  - rewrite Hs2 at 1. rewrite Hpre2 at 1. by rewrite <- app_assoc.
  - replace (Z.of_nat (length pre2) + 1)%Z
      with (Z.of_nat (S (length pre2))) by lia.
    assert (Hs : s = pre ++ (LBRACE :: mid ++ [RBRACE]) ++ post).
    { rewrite Hs2 at 1. rewrite Hpre2 at 1.
      by repeat (rewrite <- app_assoc || cbn [app]). }
    assert (Hl : S (length pre2) - length pre = length (LBRACE :: mid ++ [RBRACE])).
    { rewrite Hpre2. cbn [length]. rewrite !length_app. cbn [length]. lia. }
    rewrite substring_slice.
    + rewrite Hl. rewrite Hs at 1.
      by rewrite drop_app_length, take_app_length.
    + lia.
Qed.

(** Brace-free text around a text does not change what is embedded. *)
Lemma json_text_app pre s suf :
  brace_free pre → brace_free suf →
  json_text (pre ++ s ++ suf) = json_text s.
Proof.
  intros [Hpl Hpr] [Hsl Hsr]. unfold json_text. cbv zeta.
  rewrite indexOf_app_l, indexOf_app_r by done.
  rewrite lastIndexOf_app_l, lastIndexOf_app_r by done.
  pose proof (indexOf_bounds s LBRACE) as Hi.
  pose proof (lastIndexOf_bounds s RBRACE) as Hj.
  destruct (Z.eqb_spec (Js.indexOf s LBRACE) (-1)) as [|Hi']; [done|].
  destruct (Z.eqb_spec (Js.lastIndexOf s RBRACE) (-1)) as [|Hj'].
  { cbn. by rewrite andb_false_r. }
  destruct (Z.eqb_spec (Z.of_nat (length pre) + Js.indexOf s LBRACE) (-1)); [lia|].
  destruct (Z.eqb_spec (Z.of_nat (length pre) + Js.lastIndexOf s RBRACE) (-1)); [lia|].
  cbn [negb andb].
  destruct (Z.ltb_spec (Js.indexOf s LBRACE) (Js.lastIndexOf s RBRACE)) as [Hlt|Hge].
  - destruct (Z.ltb_spec (Z.of_nat (length pre) + Js.indexOf s LBRACE)
                (Z.of_nat (length pre) + Js.lastIndexOf s RBRACE)); [|lia].
    f_equal. rewrite <- Z.add_assoc. apply substring_app; lia.
  - destruct (Z.ltb_spec (Z.of_nat (length pre) + Js.indexOf s LBRACE)
                (Z.of_nat (length pre) + Js.lastIndexOf s RBRACE)); [lia|done].
Qed.

Lemma json_text_app_l pre s :
  brace_free pre → json_text (pre ++ s) = json_text s.
Proof.
  intros H. rewrite <- (app_nil_r s) at 1.
  apply json_text_app; [done | apply brace_free_nil].
Qed.

Lemma json_text_app_r s suf :
  brace_free suf → json_text (s ++ suf) = json_text s.
Proof. intros H. apply (json_text_app [] s suf); [apply brace_free_nil | done]. Qed.

(** [trim] removes white space at both ends, and only that. *)
Lemma trimStart_spec s :
  ∃ a, s = a ++ Js.trimStart s ∧ Forall (λ c, Js.is_space c = true) a.
Proof.
  induction s as [|c r (a & Hr & Ha)]; cbn [Js.trimStart].
  - by exists [].
  - destruct (Js.is_space c) eqn:E.
    + exists (c :: a). split; [cbn; by f_equal | by constructor].
    + by exists [].
Qed.

Lemma trimEnd_spec s :
  ∃ b, s = Js.trimEnd s ++ b ∧ Forall (λ c, Js.is_space c = true) b.
Proof.
  induction s as [|c r (b & Hr & Hb)]; cbn [Js.trimEnd].
  - by exists [].
  - destruct (Js.trimEnd r) as [|d r'] eqn:E.
    + destruct (Js.is_space c) eqn:Ec.
      * exists (c :: b). cbn in *. subst r. split; [done | by constructor].
      * exists b. cbn in *. by subst r.
    + exists b. split; [|done]. rewrite Hr at 1. done.
Qed.

Lemma trim_spec s :
  ∃ a b, s = a ++ Js.trim s ++ b
         ∧ Forall (λ c, Js.is_space c = true) a
         ∧ Forall (λ c, Js.is_space c = true) b.
Proof.
  destruct (trimStart_spec s) as (a & Ha & Hsa).
  destruct (trimEnd_spec (Js.trimStart s)) as (b & Hb & Hsb).
  exists a, b. unfold Js.trim. by rewrite <- Hb.
Qed.

Lemma json_text_trim s : json_text (Js.trim s) = json_text s.
Proof.
  destruct (trim_spec s) as (a & b & Hs & Ha & Hb).
  rewrite Hs at 2. symmetry. apply json_text_app; by apply brace_free_spaces.
Qed.

(** The pattern replaced by [replace_fences] removes an opening fence
    at the start and a closing fence at the end, and only that. *)
Lemma strip_prefix_Some p s r : Js.strip_prefix p s = Some r → s = p ++ r.
Proof.
  revert s. induction p as [|a p IH]; intros [|b s]; cbn; try congruence.
  destruct (N.eqb_spec a b) as [->|]; [|done].
  intros H. by rewrite (IH _ H).
Qed.

Lemma strip_prefix_app p r : Js.strip_prefix p (p ++ r) = Some r.
Proof. induction p as [|a p IH]; cbn; [done|]. by rewrite N.eqb_refl. Qed.

Lemma drop_closing_fence_spec s :
  ∃ b, s = Js.drop_closing_fence s ++ b ∧ (b = [] ∨ b = Js.fence_close).
Proof.
  induction s as [|c r (b & Hr & Hb)].
  - exists []. by split; [|left].
  - cbn [Js.drop_closing_fence]. case_bool_decide as E.
    + exists Js.fence_close. by split; [|right].
    + exists b. split; [cbn; by f_equal | done].
Qed.

Lemma drop_closing_fence_app p :
  Js.drop_closing_fence (p ++ Js.fence_close) = p.
Proof.
  induction p as [|c p IH].
  - done.
  - cbn [app Js.drop_closing_fence]. case_bool_decide as E.
    + apply (f_equal length) in E. rewrite length_cons, length_app in E.
      change (length Js.fence_close) with 4 in E. lia.
    + by rewrite IH.
Qed.

Lemma replace_fences_spec t :
  ∃ a b, t = a ++ Js.replace_fences t ++ b ∧ brace_free a ∧ brace_free b.
Proof.
  unfold Js.replace_fences.
  destruct (Js.strip_prefix Js.fence_open t) as [r|] eqn:E.
  - apply strip_prefix_Some in E.
    destruct (drop_closing_fence_spec r) as (b & Hr & Hb).
    exists Js.fence_open, b. split_and!.
    + by rewrite <- Hr.
    + apply brace_free_fence_open.
    + destruct Hb as [-> | ->];
        [apply brace_free_nil | apply brace_free_fence_close].
  - destruct (drop_closing_fence_spec t) as (b & Hr & Hb).
    exists [], b. split_and!.
    + done.
    + apply brace_free_nil.
    + destruct Hb as [-> | ->];
        [apply brace_free_nil | apply brace_free_fence_close].
Qed.

Lemma replace_fences_fenced p :
  Js.replace_fences (Js.fence_open ++ p ++ Js.fence_close) = p.
Proof.
  unfold Js.replace_fences.
  by rewrite strip_prefix_app, drop_closing_fence_app.
Qed.

(** Cleaning a response keeps the JSON text embedded in it. *)
Lemma json_text_cleaned t :
  json_text (Js.trim (Js.replace_fences t)) = json_text t.
Proof.
  rewrite json_text_trim.
  destruct (replace_fences_spec t) as (a & b & Ht & Ha & Hb).
  rewrite Ht at 2. symmetry. by apply json_text_app.
Qed.

End Embedded.

(** ** JSON.parse and its fuel *)

Section Fuel.

Implicit Types (s r : jsstring) (v : value).

Lemma skip_ws_length s : length (JSON.skip_ws s) ≤ length s.
Proof.
  induction s as [|c s IH]; cbn [JSON.skip_ws length]; [lia|].
  destruct (JSON.is_ws c); cbn [length]; lia.
Qed.

Lemma parse_chars_length s cs r :
  JSON.parse_chars s = Some (cs, r) → length r < length s.
Proof.
  remember (length s) as n eqn:Hn. revert s cs r Hn.
  induction n as [n IH] using lt_wf_ind. intros [|c s] cs r Hn; [done|].
  cbn [JSON.parse_chars length] in *.
  destruct (c =? DQUOTE)%N; [intros [= _ <-]; lia|].
  destruct (c =? ch "\")%N.
  - destruct s as [|e r1]; [done|].
    destruct (e =? ch "u")%N.
    + destruct r1 as [|x1 [|x2 [|x3 [|x4 r2]]]]; try done.
      destruct (JSON.hex_digit x1), (JSON.hex_digit x2), (JSON.hex_digit x3),
        (JSON.hex_digit x4); try done. cbn.
      destruct (JSON.parse_chars r2) as [[cs' r']|] eqn:E; [|done].
      cbn. intros [= _ <-].
      apply (IH (length r2)) in E; [|subst n; cbn [length]; lia|done].
      subst n. cbn [length]. lia.
    + destruct (JSON.escape e); [|done]. cbn.
      destruct (JSON.parse_chars r1) as [[cs' r']|] eqn:E; [|done].
      cbn. intros [= _ <-].
      apply (IH (length r1)) in E; [|subst n; cbn [length]; lia|done].
      subst n. cbn [length]. lia.
  - destruct (c <? 32)%N; [done|].
    destruct (JSON.parse_chars s) as [[cs' r']|] eqn:E; [|done].
    cbn. intros [= _ <-].
    apply (IH (length s)) in E; [|lia|done]. lia.
Qed.

Lemma span_digits_length s ds r :
  JSON.span_digits s = (ds, r) → length s = length ds + length r.
Proof.
  revert ds r. induction s as [|c s IH]; intros ds r; cbn [JSON.span_digits].
  - by intros [= <- <-].
  - destruct (Js.is_digit c).
    + destruct (JSON.span_digits s) as [ds' r'] eqn:E. intros [= <- <-].
      cbn [length]. by rewrite (IH ds' r').
    + by intros [= <- <-].
Qed.

Lemma digits1_length s ds r :
  JSON.digits1 s = Some (ds, r) → length r < length s.
Proof.
  unfold JSON.digits1. destruct (JSON.span_digits s) as [[|d ds'] r'] eqn:E; [done|].
  intros [= <- <-]. apply span_digits_length in E. cbn [length] in E. lia.
Qed.

Lemma parse_sign_length plus s neg r :
  JSON.parse_sign plus s = (neg, r) → length r ≤ length s.
Proof.
  unfold JSON.parse_sign. destruct s as [|c s]; [by intros [= _ <-]|].
  repeat case_match; intros [= _ <-]; cbn [length]; lia.
Qed.

Lemma parse_number_length s v r :
  JSON.parse_number s = Some (v, r) → length r < length s.
Proof.
  unfold JSON.parse_number.
  destruct (JSON.parse_sign false s) as [neg s1] eqn:E1.
  apply parse_sign_length in E1.
  assert (∀ int s2, match s1 with
                    | c :: r => if (c =? ch "0")%N then Some ([c], r)
                                else JSON.digits1 s1
                    | [] => None
                    end = Some (int, s2) → length s2 < length s1) as Hint.
  { intros int s2. destruct s1 as [|c r0]; [done|].
    destruct (c =? ch "0")%N; [intros [= _ <-]; cbn [length]; lia|].
    apply digits1_length. }
  destruct (match s1 with [] => None | _ => _ end) as [[int s2]|]; [|done].
  specialize (Hint int s2 eq_refl). cbn [mbind option_bind].
  assert (∀ frac s3, match s2 with
                     | c :: r => if (c =? ch ".")%N then JSON.digits1 r
                                 else Some ([], s2)
                     | [] => Some ([], s2)
                     end = Some (frac, s3) → length s3 ≤ length s2) as Hfrac.
  { intros frac s3. destruct s2 as [|c r0]; [by intros [= _ <-]|].
    destruct (c =? ch ".")%N; [|by intros [= _ <-]].
    intros H%digits1_length. cbn [length]. lia. }
  destruct (match s2 with [] => _ | _ => _ end) as [[frac s3]|]; [|done].
  specialize (Hfrac frac s3 eq_refl). cbn [mbind option_bind].
  assert (∀ exp s4, match s3 with
                    | c :: r =>
                        if ((c =? ch "e") || (c =? ch "E"))%N then
                          let '(eneg, r1) := JSON.parse_sign true r in
                          '(ds, r2) ← JSON.digits1 r1;
                          let n := Z.of_N (Js.number_of_digits ds) in
                          Some (if eneg then (- n)%Z else n, r2)
                        else Some (0%Z, s3)
                    | [] => Some (0%Z, s3)
                    end = Some (exp, s4) → length s4 ≤ length s3) as Hexp.
  { intros exp s4. destruct s3 as [|c r0]; [by intros [= _ <-]|].
    destruct ((c =? ch "e") || (c =? ch "E"))%N; [|by intros [= _ <-]].
    destruct (JSON.parse_sign true r0) as [eneg r1] eqn:E.
    apply parse_sign_length in E.
    destruct (JSON.digits1 r1) as [[ds r2]|] eqn:E'; [|done].
    apply digits1_length in E'. cbn. intros [= _ <-]. cbn [length]. lia. }
  destruct (match s3 with [] => _ | _ => _ end) as [[exp s4]|]; [|done].
  specialize (Hexp exp s4 eq_refl). cbn. intros [= _ <-]. lia.
Qed.

Lemma parse_literal_length s v r :
  JSON.parse_literal s = Some (v, r) → length r < length s.
Proof.
  unfold JSON.parse_literal.
  repeat (destruct (Js.strip_prefix _ s) as [rest|] eqn:E;
          [apply strip_prefix_Some in E; intros [= _ <-]; subst s;
           rewrite length_app; cbn; lia | clear E]).
  done.
Qed.

Lemma parse_elements_fuel pv k s acc v r :
  reproduced pv →
  JSON.parse_elements pv k s acc = Some (v, r) →
  length r < length s
  ∧ ∀ n k2, length s - length r ≤ n → length s - length r ≤ k2 →
      JSON.parse_elements (JSON.parse_value n) k2 s acc = Some (v, r).
Proof.
  intros Hpv. revert s acc.
  induction k as [|k IH]; intros s acc; cbn [JSON.parse_elements]; [done|].
  destruct (pv s) as [[v0 r0]|] eqn:E0; [|done]. cbn [mbind option_bind].
  destruct (Hpv _ _ _ E0) as [Hlen0 Hrun0].
  pose proof (skip_ws_length r0) as Hws.
  destruct (JSON.skip_ws r0) as [|c r'] eqn:Ews; [done|]. cbn [length] in Hws.
  destruct (c =? ch ",")%N eqn:Ec.
  - intros H. destruct (IH _ _ H) as [Hlen Hrun]. split; [lia|].
    intros n [|k2] Hn Hk2; [lia|]. cbn [JSON.parse_elements].
    rewrite Hrun0 by lia. cbn [mbind option_bind]. rewrite Ews, Ec.
    apply Hrun; lia.
  - destruct (c =? ch "]")%N eqn:Ec'; [|done]. intros [= <- <-]. split; [lia|].
    intros n [|k2] Hn Hk2; [lia|]. cbn [JSON.parse_elements].
    rewrite Hrun0 by lia. cbn [mbind option_bind]. by rewrite Ews, Ec, Ec'.
Qed.

Lemma parse_members_fuel pv k s acc v r :
  reproduced pv →
  JSON.parse_members pv k s acc = Some (v, r) →
  length r < length s
  ∧ ∀ n k2, length s - length r ≤ n → length s - length r ≤ k2 →
      JSON.parse_members (JSON.parse_value n) k2 s acc = Some (v, r).
Proof.
  intros Hpv. revert s acc.
  induction k as [|k IH]; intros s acc; cbn [JSON.parse_members]; [done|].
  pose proof (skip_ws_length s) as Hws.
  destruct (JSON.skip_ws s) as [|q r0] eqn:Ews; [done|]. cbn [length] in Hws.
  destruct (q =? DQUOTE)%N eqn:Eq; [|done].
  destruct (JSON.parse_chars r0) as [[key r1]|] eqn:Ekey; [|done].
  cbn [mbind option_bind].
  pose proof (parse_chars_length _ _ _ Ekey) as Hkey.
  pose proof (skip_ws_length r1) as Hws1.
  destruct (JSON.skip_ws r1) as [|c r2] eqn:Ews1; [done|]. cbn [length] in Hws1.
  destruct (c =? ch ":")%N eqn:Ec; [|done].
  destruct (pv r2) as [[v0 r3]|] eqn:E0; [|done]. cbn [mbind option_bind].
  destruct (Hpv _ _ _ E0) as [Hlen0 Hrun0].
  pose proof (skip_ws_length r3) as Hws3.
  destruct (JSON.skip_ws r3) as [|d r'] eqn:Ews3; [done|]. cbn [length] in Hws3.
  destruct (d =? ch ",")%N eqn:Ed.
  - intros H. destruct (IH _ _ H) as [Hlen Hrun]. split; [lia|].
    intros n [|k2] Hn Hk2; [lia|]. cbn [JSON.parse_members].
    rewrite Ews, Eq, Ekey. cbn [mbind option_bind]. rewrite Ews1, Ec.
    rewrite Hrun0 by lia. cbn [mbind option_bind]. rewrite Ews3, Ed.
    apply Hrun; lia.
  - destruct (d =? ch "}")%N eqn:Ed'; [|done]. intros [= <- <-]. split; [lia|].
    intros n [|k2] Hn Hk2; [lia|]. cbn [JSON.parse_members].
    rewrite Ews, Eq, Ekey. cbn [mbind option_bind]. rewrite Ews1, Ec.
    rewrite Hrun0 by lia. cbn [mbind option_bind]. by rewrite Ews3, Ed, Ed'.
Qed.

Lemma parse_value_fuel m : reproduced (JSON.parse_value m).
Proof.
  induction m as [|m IH]; intros s v r; cbn [JSON.parse_value]; [done|].
  pose proof (skip_ws_length s) as Hws.
  destruct (JSON.skip_ws s) as [|c r0] eqn:Ews; [done|]. cbn [length] in Hws.
  destruct (c =? ch "{")%N eqn:E1.
  { pose proof (skip_ws_length r0) as Hws0.
    destruct (JSON.skip_ws r0) as [|d r'] eqn:Ews0; [done|]. cbn [length] in Hws0.
    destruct (d =? ch "}")%N eqn:Ed.
    - intros [= <- <-]. split; [lia|]. intros [|n] Hn; [lia|].
      cbn [JSON.parse_value]. by rewrite Ews, E1, Ews0, Ed.
    - intros H. destruct (parse_members_fuel _ _ _ _ _ _ IH H) as [Hlen Hrun].
      split; [lia|]. intros [|n] Hn; [lia|].
      cbn [JSON.parse_value]. rewrite Ews, E1, Ews0, Ed. apply Hrun; lia. }
  destruct (c =? ch "[")%N eqn:E2.
  { pose proof (skip_ws_length r0) as Hws0.
    destruct (JSON.skip_ws r0) as [|d r'] eqn:Ews0; [done|]. cbn [length] in Hws0.
    destruct (d =? ch "]")%N eqn:Ed.
    - intros [= <- <-]. split; [lia|]. intros [|n] Hn; [lia|].
      cbn [JSON.parse_value]. by rewrite Ews, E1, E2, Ews0, Ed.
    - intros H. destruct (parse_elements_fuel _ _ _ _ _ _ IH H) as [Hlen Hrun].
      split; [lia|]. intros [|n] Hn; [lia|].
      cbn [JSON.parse_value]. rewrite Ews, E1, E2, Ews0, Ed. apply Hrun; lia. }
  assert (∀ n, JSON.parse_value (S n) s =
               if (c =? DQUOTE)%N
               then '(cs, rest) ← JSON.parse_chars r0; Some (VString cs, rest)
               else if (c =? ch "-")%N || Js.is_digit c
                    then JSON.parse_number (c :: r0)
                    else JSON.parse_literal (c :: r0)) as Hrun.
  { intros n. cbn [JSON.parse_value]. by rewrite Ews, E1, E2. }
  intros H. split.
  - destruct (c =? DQUOTE)%N.
    + destruct (JSON.parse_chars r0) as [[cs rest]|] eqn:E; [|done].
      apply parse_chars_length in E. revert H. cbn. intros [= _ <-]. lia.
    + destruct ((c =? ch "-")%N || Js.is_digit c).
      * apply parse_number_length in H. cbn [length] in H. lia.
      * apply parse_literal_length in H. cbn [length] in H. lia.
  - intros [|n] Hn.
    + assert (length r < length s); [|lia].
      destruct (c =? DQUOTE)%N.
      * destruct (JSON.parse_chars r0) as [[cs rest]|] eqn:E; [|done].
        apply parse_chars_length in E. revert H. cbn. intros [= _ <-]. lia.
      * destruct ((c =? ch "-")%N || Js.is_digit c).
        -- apply parse_number_length in H. cbn [length] in H. lia.
        -- apply parse_literal_length in H. cbn [length] in H. lia.
    + by rewrite Hrun.
Qed.

(** The result of [JSON.parse] is not an effect of its fuel: whatever
    some fuel parses, the fuel it uses parses to the same value. *)
Lemma parse_value_enough m text x :
  JSON.parse_value m text = Some x →
  JSON.parse_value (S (length text)) text = Some x.
Proof.
  destruct x as [v r]. intros H.
  destruct (parse_value_fuel m _ _ _ H) as [_ Hrun]. apply Hrun. lia.
Qed.

End Fuel.

(** ** Running the service *)

Ltac io_unfold :=
  unfold mbind, mret, io_mbind, io_mret, io_bind, io_ret, io_lift, io_throw,
    try_catch, console, readFile.

Lemma template_ok pieces :
  forallb Js.stringifies pieces = true → template pieces = Return pieces.
Proof. unfold template. by intros ->. Qed.

Section Skipping.

Context {M : Type} (generateContent : jsstring → M → completion value * M).

(** The early return: one warning, then the default result. *)
Lemma enrich_skip content objectId (w : world M) :
  (∀ s, content ≠ VString s) →
  Js.stringifies objectId = true →
  enrichContentWithAI generateContent content objectId w =
    (Return default_result,
     World (fs w) (remote w)
       (trace w ++ [Console Warn
          [VString (lit "Skipping enrichment for objectID "); objectId;
           VString (lit ": Invalid content provided.")]])).
Proof.
  intros Hc Hid. unfold enrichContentWithAI.
  assert (negb (Js.truthy content)
          || negb (bool_decide (Js.typeof content = lit "string")) = true) as ->.
  { destruct content as [| |b|x|s|l|o|n m];
      try (apply orb_true_iff; right; by vm_compute).
    by destruct (Hc s). }
  rewrite template_ok by (cbn; by rewrite Hid).
  done.
Qed.

End Skipping.

(** ** What can be thrown *)

Lemma readable_error name message : readable (VError name message).
Proof. by split. Qed.

Lemma readable_message e : readable e → ∃ v, Js.get e (lit "message") = Return v.
Proof.
  intros [H1 H2]. destruct e; try done; cbn; by eexists.
Qed.

Section Throws.

Context {M : Type}.


















End Throws.


Section Failure_isolation.

Context {M : Type} (generateContent : jsstring → M → completion value * M).






(** The [catch] block returns the default result for every error it
    can read the message of. *)
Lemma enrich_recover_returns objectId error (w : world M) :
  Js.stringifies objectId = true → readable error →
  ∃ w', enrich_recover objectId error w = (Return default_result, w').
Proof.
  intros Hid [v Hv]%readable_message. unfold enrich_recover.
  rewrite template_ok by (cbn; by rewrite Hid).
  io_unfold. rewrite Hv. by eexists.
Qed.


End Failure_isolation.

(** ** Independence from the state of the world *)

Section Stability.

Context {M : Type} (generateContent : jsstring → M → completion value * M).

Variable path : jsstring.

Lemma stable_ret {A} (a : A) : stable path (mret a : IO M A).
Proof. by intros w1 w2 H. Qed.

Lemma stable_throw {A} e : stable path (io_throw e : IO M A).
Proof. by intros w1 w2 H. Qed.

Lemma stable_lift {A} (c : completion A) : stable path (io_lift c : IO M A).
Proof. by intros w1 w2 H. Qed.

Lemma stable_console lvl pieces : stable path (console lvl pieces : IO M unit).
Proof. by intros w1 w2 H. Qed.

Lemma stable_readFile : stable path (readFile path : IO M jsstring).
Proof. intros w1 w2 H. by split. Qed.

Lemma stable_bind {A B} (m : IO M A) (k : A → IO M B) :
  stable path m → (∀ a, stable path (k a)) → stable path (m ≫= k).
Proof.
  intros Hm Hk w1 w2 H. io_unfold.
  destruct (Hm w1 w2 H) as [E1 E2].
  destruct (Hm w2 w2 eq_refl) as [_ E3].
  destruct (m w1) as [c1 w1'], (m w2) as [c2 w2']. cbn in E1, E2, E3. subst c2.
  destruct c1 as [a|e]; [|done].
  destruct (Hk a w1' w2') as [E4 E5]; [congruence|].
  split; [done | congruence].
Qed.

Lemma stable_try_catch {A} (m : IO M A) (h : value → IO M A) :
  stable path m → (∀ e, stable path (h e)) → stable path (try_catch m h).
Proof.
  intros Hm Hh w1 w2 H. unfold try_catch.
  destruct (Hm w1 w2 H) as [E1 E2].
  destruct (Hm w2 w2 eq_refl) as [_ E3].
  destruct (m w1) as [c1 w1'], (m w2) as [c2 w2']. cbn in E1, E2, E3. subst c2.
  destruct c1 as [a|e]; [done|].
  destruct (Hh e w1' w2') as [E4 E5]; [congruence|].
  split; [done | congruence].
Qed.

Lemma stable_call_model prompt :
  deterministic generateContent → stable path (call_model generateContent prompt).
Proof.
  intros Hdet w1 w2 H. unfold call_model.
  specialize (Hdet prompt (remote w1) (remote w2)).
  destruct (generateContent prompt (remote w1)) as [c1 m1],
           (generateContent prompt (remote w2)) as [c2 m2].
  by split.
Qed.

Ltac stable_tac :=
  repeat first
    [ apply stable_ret | apply stable_throw | apply stable_lift
    | apply stable_console
    | apply stable_bind; [|intros ?]
    | case_match ].

Lemma stable_parse_response objectId text :
  stable path (parse_response objectId text : IO M value).
Proof. unfold parse_response. stable_tac. Qed.

Lemma stable_extract objectId text :
  stable path (extract objectId text : IO M EnrichmentResult).
Proof.
  unfold extract.
  apply stable_bind; [apply stable_parse_response | intros ?]. stable_tac.
Qed.

Lemma stable_response_text objectId result :
  stable path (response_text objectId result : IO M value).
Proof. unfold response_text. stable_tac. Qed.

Lemma stable_enrich content objectId :
  deterministic generateContent →
  stable path (enrichContentWithAI generateContent content objectId).
Proof.
  intros Hdet. unfold enrichContentWithAI. case_match; [stable_tac|].
  apply stable_try_catch.
  - unfold enrich_attempt.
    apply stable_bind; [stable_tac | intros ?].
    apply stable_bind; [stable_tac | intros ?].
    apply stable_bind; [by apply stable_call_model | intros ?].
    apply stable_bind;
      [apply stable_response_text | intros ?; apply stable_extract].
  - intros e. unfold enrich_recover. stable_tac.
Qed.

Lemma stable_enrich_each articles enrichedArticles :
  deterministic generateContent →
  stable path (enrich_each generateContent articles enrichedArticles).
Proof.
  intros Hdet. revert enrichedArticles.
  induction articles as [|article rest IH]; intros acc; cbn [enrich_each].
  - apply stable_ret.
  - apply stable_bind; [apply stable_lift | intros ?].
    apply stable_bind; [apply stable_lift | intros ?].
    apply stable_bind; [by apply stable_enrich | intros ?]. apply IH.
Qed.

Lemma stable_processArticles :
  deterministic generateContent → stable path (processArticles generateContent path).
Proof.
  intros Hdet. unfold processArticles. apply stable_try_catch.
  - apply stable_bind; [apply stable_readFile | intros ?].
    apply stable_bind; [apply stable_lift | intros ?].
    apply stable_bind; [apply stable_lift | intros ?].
    by apply stable_enrich_each.
  - intros e. stable_tac.
Qed.

End Stability.

(** ** The batch *)

Section Batch.

Context {M : Type} (generateContent : jsstring → M → completion value * M).




End Batch.

(** ** The Content Enricher *)

Lemma requests_snoc_console t lvl pieces :
  requests (t ++ [Console lvl pieces]) = requests t.
Proof. unfold requests. rewrite omap_app. cbn. by rewrite app_nil_r. Qed.



Section Enricher.

Context {M : Type} (generateContent : jsstring → M → completion value * M).


(** The identifier matters: with one that does not convert to text,
    the diagnostics themselves raise, outside or inside the [catch]. *)
Lemma enrich_raises_unprintable_id content objectId (w : world M) :
  Js.stringifies objectId = false →
  enrichContentWithAI generateContent content objectId w
  = (Throw (TypeError "Cannot convert object to primitive value"), w).
Proof.
  intros Hid. unfold enrichContentWithAI, enrich_attempt, enrich_recover.
  assert (∀ a b, template [VString a; objectId; VString b]
                 = Throw (TypeError "Cannot convert object to primitive value"))
    as Ht by (intros; unfold template; cbn; by rewrite Hid).
  case_match; io_unfold; by rewrite !Ht.
Qed.

(** C4, as the code has it: for a content that is absent or not text,
    [enrichContentWithAI] sends no request and leaves the model
    untouched, whatever the identifier; when the identifier converts to
    text, it returns the all-default result at once, having written its
    warning and nothing else. *)
Theorem enrich_skips_without_model_call content objectId (w : world M) :
  (∀ s, content ≠ VString s) →
  requests (trace (enrichContentWithAI generateContent content objectId w).2)
  = requests (trace w)
  ∧ remote (enrichContentWithAI generateContent content objectId w).2
    = remote w
  ∧ (Js.stringifies objectId = true →
     enrichContentWithAI generateContent content objectId w
     = (Return default_result,
        World (fs w) (remote w)
          (trace w ++ [Console Warn
             [VString (lit "Skipping enrichment for objectID "); objectId;
              VString (lit ": Invalid content provided.")]]))).
Proof.
  intros Hc. destruct (Js.stringifies objectId) eqn:Hid.
  - rewrite enrich_skip by done. cbn [snd trace remote].
    by rewrite requests_snoc_console.
  - by rewrite enrich_raises_unprintable_id.
Qed.

End Enricher.


Lemma enrich_skips_without_model_call_witness :
  (∀ s, VUndefined ≠ VString s)
  ∧ Js.stringifies (VString (lit "1")) = true
  ∧ requests (trace (enrichContentWithAI (answering solar_payload) VUndefined
                       (VString (lit "1")) (disk solar_articles)).2)
    = requests (trace (disk solar_articles))
  ∧ remote (enrichContentWithAI (answering solar_payload) VUndefined
              (VString (lit "1")) (disk solar_articles)).2
    = remote (disk solar_articles)
  ∧ enrichContentWithAI (answering solar_payload) VUndefined
      (VString (lit "1")) (disk solar_articles)
    = (Return default_result,
       World (fs (disk solar_articles)) (remote (disk solar_articles))
         (trace (disk solar_articles) ++ [Console Warn
            [VString (lit "Skipping enrichment for objectID ");
             VString (lit "1");
             VString (lit ": Invalid content provided.")]])).
Proof.
  assert (∀ s, VUndefined ≠ VString s) as Hc by (intros s; discriminate).
  split; [exact Hc|]. split; [reflexivity|].
  destruct (enrich_skips_without_model_call (answering solar_payload)
              VUndefined (VString (lit "1")) (disk solar_articles) Hc)
    as (H1 & H2 & H3).
  split; [exact H1|]. split; [exact H2|]. exact (H3 eq_refl).
Defined.


(** C4 as stated fails for a record without content whose identifier
    does not convert to text: the warning, written outside any [try],
    raises, and no result is returned. *)
Lemma enrich_skip_raises :
  Js.stringifies unprintable_id = false
  ∧ enrichContentWithAI (answering solar_payload) VUndefined unprintable_id
      (disk solar_articles)
    = (Throw (TypeError "Cannot convert object to primitive value"),
       disk solar_articles).
Proof. split; vm_compute; reflexivity. Qed.

(** An empty text is skipped like an absent content. *)
Example enrich_skips_empty_text :
  enrichContentWithAI (answering solar_payload) (VString [])
    (VString (lit "1")) (disk solar_articles)
  = (Return default_result,
     World (fs (disk solar_articles)) 0
       [Console Warn
          [VString (lit "Skipping enrichment for objectID "); VString (lit "1");
           VString (lit ": Invalid content provided.")]]).
Proof. vm_compute. reflexivity. Qed.

(** ** The Response Extractor *)

Lemma get_truthy v k : Js.truthy v = true → ∃ x, Js.get v k = Return x.
Proof.
  destruct v; try done; intros _; cbn; repeat case_bool_decide; by eexists.
Qed.

Lemma get_total v k x k' : Js.get v k = Return x → ∃ x', Js.get v k' = Return x'.
Proof.
  destruct v; try done; intros _; cbn; repeat case_bool_decide; by eexists.
Qed.

Section Extractor.

Context {M : Type}.
Implicit Types (w : world M) (t p j : jsstring).

Lemma parse_response_found objectId t j w :
  json_text (Js.trim (Js.replace_fences t)) = Some j →
  parse_response objectId (VString t) w = (JSON.parse j, w).
Proof.
  intros Hj. unfold parse_response. cbn [replace_method].
  io_unfold. rewrite Hj. by destruct (JSON.parse j).
Qed.

Lemma parse_response_not_found objectId t w :
  json_text (Js.trim (Js.replace_fences t)) = None →
  ∃ e w', parse_response objectId (VString t) w = (Throw e, w').
Proof.
  intros Hj. unfold parse_response. cbn [replace_method].
  io_unfold. rewrite Hj. destruct (template _); by eexists _, _.
Qed.

(** C5: when the cleaned text has no opening brace, or no closing
    brace, or its last closing brace does not come after its first
    opening brace, the extraction raises an error whose message ends
    with that text, hence includes its first 200 units, which the
    warning written before shows; otherwise the text from the first
    opening brace to the last closing brace, both included, is given to
    [JSON.parse], whose result or error is the outcome. *)
Theorem parse_response_boundaries objectId t w :
  Js.stringifies objectId = true →
  let cleaned := Js.trim (Js.replace_fences t) in
  let first := Js.indexOf cleaned LBRACE in
  let last := Js.lastIndexOf cleaned RBRACE in
  ((LBRACE ∉ cleaned) ∨ (RBRACE ∉ cleaned) ∨ (last ≤ first)%Z →
     ∃ message w',
       parse_response objectId (VString t) w = (Throw (Error message), w')
       ∧ message = lit "Could not find valid JSON in Gemini response: "
                   ++ take 200 cleaned ++ drop 200 cleaned
       ∧ trace w' = trace w ++ [Console Warn
           [VString (lit "Debug: Could not find valid JSON boundaries in Gemini response for ");
            objectId; VString (lit ": " ++ [DQUOTE]);
            VString (take 200 cleaned);
            VString (lit "..." ++ [DQUOTE])]])
  ∧ (LBRACE ∈ cleaned → RBRACE ∈ cleaned → (first < last)%Z →
     ∃ pre mid post,
       cleaned = pre ++ LBRACE :: mid ++ RBRACE :: post
       ∧ (LBRACE ∉ pre) ∧ (RBRACE ∉ post)
       ∧ parse_response objectId (VString t) w
         = (JSON.parse (LBRACE :: mid ++ [RBRACE]), w)).
Proof.
  intros Hid cleaned first last. split.
  - intros Hbad.
    assert (json_text cleaned = None) as Hj.
    { unfold json_text. fold first last.
      destruct Hbad as [H|[H|H]].
      - apply indexOf_absent in H. fold first in H. by rewrite H.
      - apply lastIndexOf_absent in H. fold last in H. rewrite H.
        by rewrite andb_false_r.
      - destruct (Z.ltb_spec first last); [lia|]. by rewrite andb_false_r. }
    unfold parse_response. cbn [replace_method]. io_unfold.
    fold cleaned. rewrite Hj.
    rewrite template_ok by (cbn; by rewrite Hid).
    eexists _, _. split; [done|]. split.
    + by rewrite take_drop.
    + cbn [trace]. change 200%Z with (Z.of_nat 200).
      by rewrite substring_prefix.
  - intros Hl Hr Hlt.
    assert (∃ j, json_text cleaned = Some j) as [j Hj].
    { unfold json_text. fold first last.
      destruct (Z.eqb_spec first (-1)) as [E|_].
      { apply indexOf_absent in E. done. }
      destruct (Z.eqb_spec last (-1)) as [E|_].
      { apply lastIndexOf_absent in E. done. }
      destruct (Z.ltb_spec first last); [|lia]. by eexists. }
    destruct (json_text_Some _ _ Hj) as (pre & mid & post & Hs & Hpre & Hpost & ->).
    exists pre, mid, post. split_and!; [done..|].
    by apply parse_response_found.
Qed.

End Extractor.

Lemma parse_response_boundaries_witness :
  Js.stringifies (VString (lit "1")) = true
  ∧ (let cleaned := Js.trim (Js.replace_fences prose) in
     (LBRACE ∉ cleaned)
     ∧ ∃ message w',
         parse_response (VString (lit "1")) (VString prose) empty_disk
         = (Throw (Error message), w')
         ∧ message = lit "Could not find valid JSON in Gemini response: "
                     ++ take 200 cleaned ++ drop 200 cleaned
         ∧ trace w' = trace empty_disk ++ [Console Warn
             [VString (lit "Debug: Could not find valid JSON boundaries in Gemini response for ");
              VString (lit "1"); VString (lit ": " ++ [DQUOTE]);
              VString (take 200 cleaned);
              VString (lit "..." ++ [DQUOTE])]])
  ∧ (let cleaned := Js.trim (Js.replace_fences (fenced solar_payload)) in
     let first := Js.indexOf cleaned LBRACE in
     let last := Js.lastIndexOf cleaned RBRACE in
     LBRACE ∈ cleaned ∧ RBRACE ∈ cleaned ∧ (first < last)%Z
     ∧ ∃ pre mid post,
         cleaned = pre ++ LBRACE :: mid ++ RBRACE :: post
         ∧ (LBRACE ∉ pre) ∧ (RBRACE ∉ post)
         ∧ parse_response (VString (lit "1")) (VString (fenced solar_payload))
             empty_disk
           = (JSON.parse (LBRACE :: mid ++ [RBRACE]), empty_disk)).
Proof.
  split; [reflexivity|].
  pose proof (parse_response_boundaries (VString (lit "1")) prose empty_disk
                eq_refl) as [Hbad _].
  pose proof (parse_response_boundaries (VString (lit "1"))
                (fenced solar_payload) empty_disk eq_refl) as [_ Hgood].
  assert (LBRACE ∉ Js.trim (Js.replace_fences prose)) as H1
    by (by apply (bool_decide_unpack _)).
  assert (LBRACE ∈ Js.trim (Js.replace_fences (fenced solar_payload))) as H2
    by (by apply (bool_decide_unpack _)).
  assert (RBRACE ∈ Js.trim (Js.replace_fences (fenced solar_payload))) as H3
    by (by apply (bool_decide_unpack _)).
  assert (Js.indexOf (Js.trim (Js.replace_fences (fenced solar_payload))) LBRACE
          < Js.lastIndexOf (Js.trim (Js.replace_fences (fenced solar_payload)))
              RBRACE)%Z as H4 by (by vm_compute).
  split.
  - split; [exact H1|]. exact (Hbad (or_introl H1)).
  - split; [exact H2|]. split; [exact H3|]. split; [exact H4|].
    exact (Hgood H2 H3 H4).
Defined.

Section Decoration.

Context {M : Type}.
Implicit Types (w : world M) (t p j : jsstring).

Lemma json_text_fenced p :
  json_text (Js.trim (Js.replace_fences (fenced p)))
  = json_text (Js.trim (Js.replace_fences p)).
Proof.
  unfold fenced. rewrite replace_fences_fenced.
  by rewrite json_text_cleaned, json_text_trim.
Qed.

(** With braces in order in the payload, the fence changes nothing. *)
Lemma parse_response_fenced objectId p j w :
  json_text (Js.trim (Js.replace_fences p)) = Some j →
  parse_response objectId (VString (fenced p)) w
  = parse_response objectId (VString p) w.
Proof.
  intros Hj.
  rewrite (parse_response_found objectId p j) by done.
  apply parse_response_found. by rewrite json_text_fenced.
Qed.

(** C6: when the extraction of a payload succeeds, the extraction of
    the same payload inside a fenced block gives the same normalized
    result (and leaves the same world). *)
Theorem extract_fenced objectId p r w w' :
  extract objectId (VString p) w = (Return r, w') →
  extract objectId (VString (fenced p)) w = (Return r, w').
Proof.
  intros H.
  destruct (json_text (Js.trim (Js.replace_fences p))) as [j|] eqn:Hj.
  - unfold extract in *. io_unfold.
    by rewrite (parse_response_fenced objectId p j).
  - destruct (parse_response_not_found objectId p w Hj) as (e & w1 & E).
    unfold extract in H. revert H. io_unfold. by rewrite E.
Qed.

(** The same holds for any decoration without braces around the
    payload, such as a fence followed by a line break. *)
Lemma extract_decorated objectId pre p suf r w w' :
  brace_free pre → brace_free suf →
  extract objectId (VString p) w = (Return r, w') →
  extract objectId (VString (pre ++ p ++ suf)) w = (Return r, w').
Proof.
  intros Hpre Hsuf H.
  destruct (json_text (Js.trim (Js.replace_fences p))) as [j|] eqn:Hj.
  - unfold extract in *. revert H. io_unfold.
    rewrite (parse_response_found objectId p j) by done.
    rewrite (parse_response_found objectId (pre ++ p ++ suf) j); [done|].
    rewrite json_text_cleaned in *. by rewrite json_text_app.
  - destruct (parse_response_not_found objectId p w Hj) as (e & w1 & E).
    unfold extract in H. revert H. io_unfold. by rewrite E.
Qed.

(** So for the form the comment in the source gives: the fenced block
    followed by a line break, whose closing fence the pattern does not
    match. *)
Lemma extract_fenced_newline objectId p r w w' :
  extract objectId (VString p) w = (Return r, w') →
  extract objectId (VString (fenced p ++ [LF])) w = (Return r, w').
Proof.
  intros H. unfold fenced. rewrite <- !app_assoc.
  apply extract_decorated; [apply brace_free_fence_open | | done].
  split; by apply (bool_decide_unpack _).
Qed.

Lemma extract_parsed objectId t j payload w :
  Js.stringifies objectId = true →
  json_text (Js.trim (Js.replace_fences t)) = Some j →
  JSON.parse j = Return payload →
  extract objectId (VString t) w
  = (normalize payload,
     World (fs w) (remote w)
       (trace w ++ [Console Log
          [VString (lit "Enrichment successful for ID: "); objectId]])).
Proof.
  intros Hid Hj Hp. unfold extract. io_unfold.
  rewrite (parse_response_found objectId t j) by done. rewrite Hp.
  rewrite template_ok by (cbn; by rewrite Hid). cbn.
  by destruct (normalize payload).
Qed.

End Decoration.

Lemma extract_fenced_witness :
  extract (VString (lit "1")) (VString solar_payload) empty_disk
  = (Return solar_result,
     World (fs empty_disk) 0
       [Console Log [VString (lit "Enrichment successful for ID: ");
                     VString (lit "1")]])
  ∧ extract (VString (lit "1")) (VString (fenced solar_payload)) empty_disk
    = (Return solar_result,
       World (fs empty_disk) 0
         [Console Log [VString (lit "Enrichment successful for ID: ");
                       VString (lit "1")]]).
Proof.
  assert (extract (VString (lit "1")) (VString solar_payload) empty_disk
          = (Return solar_result,
             World (fs empty_disk) 0
               [Console Log [VString (lit "Enrichment successful for ID: ");
                             VString (lit "1")]])) as H
    by (vm_compute; reflexivity).
  split; [exact H|].
  exact (extract_fenced (VString (lit "1")) solar_payload solar_result
           empty_disk _ H).
Defined.

(** ** Normalization *)

Section Normalization.

Implicit Types (o : gmap jsstring value) (s : jsstring).

(** [split] cuts at every separator and nowhere else. *)
Lemma split_nonempty s sep : Js.split s sep ≠ [].
Proof. induction s as [|c r IH]; cbn; repeat case_match; done. Qed.

Lemma join_split s sep : join (Js.split s sep) sep = s.
Proof.
  induction s as [|c r IH]; [done|]. cbn [Js.split].
  pose proof (split_nonempty r sep) as Hne.
  destruct (N.eqb_spec c sep) as [->|Hc].
  - cbn [join app]. destruct (Js.split r sep); [done|]. by rewrite IH.
  - destruct (Js.split r sep) as [|h l]; [done|].
    cbn [join] in *. destruct l; cbn [app]; by rewrite IH.
Qed.

Lemma split_pieces s sep : Forall (λ piece, sep ∉ piece) (Js.split s sep).
Proof.
  induction s as [|c r IH]; cbn [Js.split].
  - repeat constructor. apply not_elem_of_nil.
  - destruct (N.eqb_spec c sep) as [->|Hc].
    + constructor; [apply not_elem_of_nil | done].
    + destruct (Js.split r sep) as [|h l].
      * constructor; [|constructor]. rewrite not_elem_of_cons.
        split; [congruence | apply not_elem_of_nil].
      * inversion IH; subst. constructor; [|done].
        rewrite not_elem_of_cons. split; [congruence | done].
Qed.

(** C7, as the code has it: every field of the result is the field of
    the payload when that is truthy, and the default otherwise (when it
    is missing, or falsy as the empty text is); a truthy [keywords] text
    is split at its commas and every piece trimmed; nothing checks the
    category or the sentiment against the labels of the prompt. *)
Theorem normalize_fields o :
  (Js.truthy (field o "keywords") = true →
   ∃ s, field o "keywords" = VString s) →
  normalize (VObject o) = Return
    {| summary :=
         if Js.truthy (field o "summary") then field o "summary" else VNull;
       keywords :=
         if Js.truthy (field o "keywords")
         then Js.trim <$> Js.split (text_of (field o "keywords")) COMMA
         else [];
       category :=
         if Js.truthy (field o "category") then field o "category" else VNull;
       sentiment :=
         if Js.truthy (field o "sentiment") then field o "sentiment"
         else VNull |}.
Proof.
  intros Hk. unfold normalize. cbn [Js.get mbind completion_bind].
  fold (field o "keywords") (field o "summary") (field o "category")
    (field o "sentiment").
  destruct (Js.truthy (field o "keywords")) eqn:E.
  - destruct Hk as [s Hs]; [done|]. rewrite Hs. done.
  - done.
Qed.

(** A truthy [keywords] that is not a text has no [split]. *)
Lemma normalize_keywords_not_text payload k :
  Js.get payload (lit "keywords") = Return k →
  Js.truthy k = true → (∀ s, k ≠ VString s) →
  normalize payload
  = Throw (TypeError "parsedResult.keywords.split is not a function").
Proof.
  intros Hk Ht Hs. unfold normalize.
  destruct (get_total _ _ _ (lit "summary") Hk) as [x ->].
  rewrite Hk. cbn [mbind completion_bind]. rewrite Ht.
  cbn [mbind completion_bind].
  destruct k as [| | | |s| | |]; try done. by destruct (Hs s).
Qed.

End Normalization.

(** C7 as stated fails on empty texts: an empty category or sentiment
    text becomes absent instead of being kept, and an empty keywords text
    gives no keyword instead of the one empty piece of its split. *)
Lemma normalize_empty_texts :
  let payload := VObject (<[lit "summary" := VString (lit "S")]>
                         (<[lit "keywords" := VString []]>
                         (<[lit "category" := VString []]>
                         (<[lit "sentiment" := VString []]> ∅)))) in
  ∃ r, normalize payload = Return r
       ∧ Js.get payload (lit "category") = Return (VString [])
       ∧ category r = VNull
       ∧ Js.get payload (lit "sentiment") = Return (VString [])
       ∧ sentiment r = VNull
       ∧ Js.get payload (lit "keywords") = Return (VString [])
       ∧ keywords r = []
       ∧ Js.trim <$> Js.split [] COMMA = [[]].
Proof. vm_compute. eexists. by split_and!. Qed.

Lemma normalize_fields_witness :
  (Js.truthy (field cooking_payload "keywords") = true →
   ∃ s, field cooking_payload "keywords" = VString s)
  ∧ normalize (VObject cooking_payload)
    = Return {| summary := VString (lit "S");
                keywords := [lit "a"; lit "b"];
                category := VString (lit "Cooking");
                sentiment := VNull |}.
Proof.
  assert (Js.truthy (field cooking_payload "keywords") = true →
          ∃ s, field cooking_payload "keywords" = VString s) as H.
  { intros _. exists (lit "a, b"). vm_compute. reflexivity. }
  split; [exact H|].
  pose proof (normalize_fields cooking_payload H) as E.
  vm_compute in E |- *. exact E.
Defined.

(** ** Payloads that parse but cannot be normalized *)

Section Keywords.

Context {M : Type} (generateContent : jsstring → M → completion value * M).

Lemma enrich_attempt_text prompt objectId (w : world M) t m' :
  Js.stringifies objectId = true →
  responds_with generateContent prompt (remote w) t m' →
  enrich_attempt generateContent prompt objectId w
  = extract objectId (VString t)
      (World (fs w) m'
         ((trace w ++ [Console Log
             [VString (lit "Sending content for enrichment (ID: ");
              objectId; VString (lit ")...")]]) ++ [Request prompt])).
Proof.
  intros Hid (result & Hgen & Hcand & Htext).
  unfold enrich_attempt, response_text, call_model.
  rewrite !template_ok by (cbn; by rewrite Hid).
  io_unfold. cbn [remote fs trace]. rewrite Hgen, Hcand, Htext.
  by destruct (extract _ _ _) as [[?|?] ?].
Qed.


(** the response has no text candidate, *)
Lemma enrich_attempt_no_candidate prompt objectId (w : world M) result m' :
  Js.stringifies objectId = true →
  generateContent prompt (remote w) = (Return result, m') →
  no_text_candidate result = Return true →
  ∃ w1,
    enrich_attempt generateContent prompt objectId w
    = (Throw (Error (lit "Gemini API did not return a valid text candidate.")),
       w1).
Proof.
  intros Hid Hgen Hcand. unfold enrich_attempt, response_text, call_model.
  rewrite !template_ok by (cbn; by rewrite Hid).
  io_unfold. cbn [remote fs trace]. rewrite Hgen, Hcand.
  unfold and_then, Js.path. cbn [foldl mbind completion_bind].
  destruct (Js.truthy result) eqn:Hr; [|rewrite Hr; by eexists].
  destruct (get_truthy result (lit "promptFeedback") Hr) as [pf Hpf].
  rewrite Hpf. cbn [mbind completion_bind].
  destruct (Js.truthy pf) eqn:Hp.
  - destruct (get_truthy pf (lit "safetyRatings") Hp) as [sr Hsr].
    rewrite Hsr. destruct (Js.truthy sr); by eexists.
  - rewrite Hp. by eexists.
Qed.

(** or its text holds no JSON text, or one that does not parse. *)
Lemma enrich_attempt_unparseable prompt objectId (w : world M) t m' :
  Js.stringifies objectId = true →
  responds_with generateContent prompt (remote w) t m' →
  json_text (Js.trim (Js.replace_fences t)) = None
  ∨ (∃ j e, json_text (Js.trim (Js.replace_fences t)) = Some j
            ∧ JSON.parse j = Throw e) →
  ∃ e w1,
    enrich_attempt generateContent prompt objectId w = (Throw e, w1).
Proof.
  intros Hid Hresp Hbad. rewrite (enrich_attempt_text _ _ _ t m') by done.
  unfold extract. io_unfold. destruct Hbad as [Hj | (j & e & Hj & Hp)].
  - match goal with
    | |- context [parse_response objectId (VString t) ?w0] =>
        destruct (parse_response_not_found objectId t w0 Hj) as (e & w1 & ->)
    end.
    by eexists _, _.
  - rewrite (parse_response_found objectId t j) by done. rewrite Hp.
    by eexists _, _.
Qed.

(** C9, as the code has it: when the payload parses and its [keywords]
    field is truthy and not a text (a list of texts, a number, an
    object), the result is the all-default one: the summary, category
    and sentiment of the payload are discarded with it. *)
Theorem enrich_discards_payload s objectId (w : world M) t m' j payload k :
  s ≠ [] →
  Js.stringifies objectId = true →
  responds_with generateContent (prompt_of (VString s)) (remote w) t m' →
  json_text (Js.trim (Js.replace_fences t)) = Some j →
  JSON.parse j = Return payload →
  Js.get payload (lit "keywords") = Return k →
  Js.truthy k = true → (∀ x, k ≠ VString x) →
  ∃ w',
    enrichContentWithAI generateContent (VString s) objectId w
    = (Return default_result, w').
Proof.
  intros Hne Hid Hresp Hj Hp Hk Ht Hs. unfold enrichContentWithAI.
  destruct s as [|c s]; [done|].
  cbn [Js.truthy Js.typeof negb orb]. rewrite bool_decide_eq_true_2 by done.
  cbn [negb]. unfold try_catch.
  rewrite (enrich_attempt_text _ _ _ t m') by done.
  rewrite (extract_parsed _ _ j payload) by done.
  rewrite (normalize_keywords_not_text payload k) by done.
  apply enrich_recover_returns; [done | apply readable_error].
Qed.

End Keywords.

(** C9 as stated fails when the [keywords] field is present, not a text
    and falsy: the payload is kept, with no keywords. *)
Lemma enrich_keeps_payload_without_keywords :
  ∃ payload w',
    JSON.parse no_keywords_payload = Return payload
    ∧ Js.get payload (lit "keywords") = Return (VBool false)
    ∧ enrichContentWithAI (answering no_keywords_payload)
        (VString (lit "Solar panel costs fell 30% this year."))
        (VString (lit "1")) (disk solar_articles)
      = (Return {| summary := VString (lit "S"); keywords := [];
                   category := VString (lit "Technology");
                   sentiment := VString (lit "Positive") |}, w')
    ∧ {| summary := VString (lit "S"); keywords := [];
         category := VString (lit "Technology");
         sentiment := VString (lit "Positive") |} ≠ default_result.
Proof. vm_compute. eexists _, _. by split_and!. Qed.

Lemma responds_with_answering text prompt served :
  text ≠ [] →
  responds_with (answering text) prompt served text (S served).
Proof.
  intros Hne. exists (response_with (VString text)). split_and!; [done| |done].
  destruct text; [done|]. vm_compute. reflexivity.
Qed.


Lemma enrich_discards_payload_witness :
  solar_content ≠ []
  ∧ Js.stringifies (VString (lit "1")) = true
  ∧ responds_with (answering listed_keywords_payload)
      (prompt_of (VString solar_content)) (remote (disk solar_articles))
      listed_keywords_payload 1
  ∧ json_text (Js.trim (Js.replace_fences listed_keywords_payload))
    = Some listed_keywords_payload
  ∧ JSON.parse listed_keywords_payload = Return listed_keywords_parsed
  ∧ Js.get listed_keywords_parsed (lit "keywords") = Return listed_keywords
  ∧ Js.truthy listed_keywords = true
  ∧ (∀ x, listed_keywords ≠ VString x)
  ∧ ∃ w',
      enrichContentWithAI (answering listed_keywords_payload)
        (VString solar_content) (VString (lit "1")) (disk solar_articles)
      = (Return default_result, w').
Proof.
  assert (solar_content ≠ []) as Hne by (vm_compute; discriminate).
  assert (responds_with (answering listed_keywords_payload)
            (prompt_of (VString solar_content)) (remote (disk solar_articles))
            listed_keywords_payload 1) as Hresp.
  { apply responds_with_answering. vm_compute. discriminate. }
  assert (json_text (Js.trim (Js.replace_fences listed_keywords_payload))
          = Some listed_keywords_payload) as Hj by (vm_compute; reflexivity).
  assert (JSON.parse listed_keywords_payload = Return listed_keywords_parsed)
    as Hp by (vm_compute; reflexivity).
  assert (Js.get listed_keywords_parsed (lit "keywords") = Return listed_keywords)
    as Hk by (vm_compute; reflexivity).
  assert (∀ x, listed_keywords ≠ VString x) as Hs by (intros x; discriminate).
  repeat (split; [first [exact Hne | exact Hresp | exact Hj | exact Hp
                        | exact Hk | exact Hs | reflexivity]|]).
  exact (enrich_discards_payload (answering listed_keywords_payload)
           solar_content (VString (lit "1")) (disk solar_articles)
           listed_keywords_payload 1 listed_keywords_payload
           listed_keywords_parsed listed_keywords
           Hne eq_refl Hresp Hj Hp Hk eq_refl Hs).
Defined.

(** ** The Batch Processor *)

Section Processor.

Context {M : Type} (generateContent : jsstring → M → completion value * M).

(** C3: [processArticles] never raises: whatever the world and the
    model, it returns; and when the source cannot be read, or its content
    is not JSON, it returns the empty array, having written the error to
    the console and sent no request. *)
Theorem processArticles_unusable_source filePath (w : world M) :
  (∃ outs w', processArticles generateContent filePath w = (Return outs, w'))
  ∧ ∀ e,
      fs w filePath = Throw e
      ∨ (∃ content, fs w filePath = Return content
                    ∧ JSON.parse content = Throw e) →
      processArticles generateContent filePath w
      = (Return [], World (fs w) (remote w)
                      (trace w ++ [load_error_log filePath e])).
Proof.
  split.
  - unfold processArticles, try_catch.
    match goal with
    | |- context [match ?body with (_, _) => _ end] =>
        destruct body as [[outs|e] w']
    end; by eexists _, _.
  - intros e [H | (content & H & Hp)];
      unfold processArticles; io_unfold; rewrite H; [done|].
    by rewrite Hp.
Qed.

(** C10, as the code has it: when the content parses to a value that
    cannot be iterated (null, a boolean, a number, a single object),
    [processArticles] returns the empty array, having enriched nothing
    and raised nothing. *)
Theorem processArticles_not_iterable filePath (w : world M) content v :
  fs w filePath = Return content →
  JSON.parse content = Return v →
  not_iterable v →
  processArticles generateContent filePath w
  = (Return [], World (fs w) (remote w)
                  (trace w ++ [load_error_log filePath
                                 (TypeError "articles is not iterable")])).
Proof.
  intros H Hp Hv. unfold processArticles. io_unfold. rewrite H, Hp.
  by destruct v.
Qed.


End Processor.


(** C10 as stated fails for a source that is one JSON text: the text is
    iterated and every character gives a record. *)
Lemma processArticles_iterates_text :
  ∃ a b w',
    JSON.parse (json_lit "'ab'") = Return (VString (lit "ab"))
    ∧ processArticles (answering solar_payload) articles_path
        (disk (json_lit "'ab'")) = (Return [a; b], w')
    ∧ Js.spread a !! lit "0" = Some (VString (lit "a"))
    ∧ Js.spread b !! lit "0" = Some (VString (lit "b"))
    ∧ Js.spread a !! lit "ai_summary" = Some VNull
    ∧ requests (trace w') = [].
Proof. vm_compute. eexists _, _, _. by split_and!. Qed.

Lemma processArticles_unusable_source_witness :
  (∃ outs w', processArticles (answering solar_payload) articles_path
                (disk (lit "not json")) = (Return outs, w'))
  ∧ processArticles (answering solar_payload) articles_path empty_disk
    = (Return [], World (fs empty_disk) (remote empty_disk)
                    (trace empty_disk ++ [load_error_log articles_path enoent]))
  ∧ processArticles (answering solar_payload) articles_path (disk (lit "not json"))
    = (Return [],
       World (fs (disk (lit "not json"))) (remote (disk (lit "not json")))
         (trace (disk (lit "not json"))
          ++ [load_error_log articles_path
                (SyntaxError "Unexpected token in JSON")])).
Proof.
  split; [|split].
  - apply (processArticles_unusable_source (answering solar_payload)).
  - apply (processArticles_unusable_source (answering solar_payload)).
    left. reflexivity.
  - apply (processArticles_unusable_source (answering solar_payload)).
    right. exists (lit "not json"). split; vm_compute; reflexivity.
Defined.

Lemma processArticles_not_iterable_witness :
  fs (disk single_article) articles_path = Return single_article
  ∧ JSON.parse single_article = Return solar_record
  ∧ not_iterable solar_record
  ∧ processArticles (answering solar_payload) articles_path (disk single_article)
    = (Return [],
       World (fs (disk single_article)) (remote (disk single_article))
         (trace (disk single_article)
          ++ [load_error_log articles_path
                (TypeError "articles is not iterable")])).
Proof.
  assert (fs (disk single_article) articles_path = Return single_article)
    as H1 by (vm_compute; reflexivity).
  assert (JSON.parse single_article = Return solar_record)
    as H2 by (vm_compute; reflexivity).
  split; [exact H1|]. split; [exact H2|]. split; [exact I|].
  exact (processArticles_not_iterable (answering solar_payload) articles_path
           (disk single_article) single_article solar_record H1 H2 I).
Defined.


(** The scenario of the specification: one record about solar panels and
    a model answering with a fenced payload. *)
Example solar_scenario :
  (processArticles (answering (fenced solar_payload)) articles_path
     (disk solar_articles)).1
  = Return [enriched solar_record solar_result].
Proof. vm_compute. reflexivity. Qed.

(** The same with a model answering in prose: the record is kept, with
    default metadata. *)
Example prose_scenario :
  (processArticles (answering prose) articles_path
     (disk solar_articles)).1
  = Return [enriched solar_record default_result].
Proof. vm_compute. reflexivity. Qed.

(** ** Determinism *)

Section Determinism.

Context {M : Type} (generateContent : jsstring → M → completion value * M).

(** C8: with a model whose answers depend on the prompt only, two calls
    of [processArticles] on a source with the same content give the same
    output, record for record, whatever the state of the model and of
    the console at each call. *)
Theorem processArticles_deterministic filePath (w1 w2 : world M) :
  deterministic generateContent →
  fs w1 filePath = fs w2 filePath →
  (processArticles generateContent filePath w1).1
  = (processArticles generateContent filePath w2).1.
Proof.
  intros Hdet Hsrc.
  by destruct (stable_processArticles generateContent filePath Hdet w1 w2 Hsrc).
Qed.

(** In particular for a second call made right after the first. *)
Lemma processArticles_twice filePath (w : world M) :
  deterministic generateContent →
  (processArticles generateContent filePath
     (processArticles generateContent filePath w).2).1
  = (processArticles generateContent filePath w).1.
Proof.
  intros Hdet.
  destruct (stable_processArticles generateContent filePath Hdet w w eq_refl)
    as [_ Hsame].
  by destruct (stable_processArticles generateContent filePath Hdet
                 (processArticles generateContent filePath w).2 w Hsame).
Qed.

End Determinism.

Lemma deterministic_answering text : deterministic (answering text).
Proof. by intros prompt m1 m2. Qed.

Lemma processArticles_deterministic_witness :
  deterministic (answering (fenced solar_payload))
  ∧ fs (disk solar_articles) articles_path
    = fs (processArticles (answering (fenced solar_payload)) articles_path
            (disk solar_articles)).2 articles_path
  ∧ (processArticles (answering (fenced solar_payload)) articles_path
       (disk solar_articles)).1
    = (processArticles (answering (fenced solar_payload)) articles_path
         (processArticles (answering (fenced solar_payload)) articles_path
            (disk solar_articles)).2).1.
Proof.
  assert (fs (disk solar_articles) articles_path
          = fs (processArticles (answering (fenced solar_payload)) articles_path
                  (disk solar_articles)).2 articles_path)
    as H by (vm_compute; reflexivity).
  split; [apply deterministic_answering|]. split; [exact H|].
  exact (processArticles_deterministic (answering (fenced solar_payload))
           articles_path (disk solar_articles) _
           (deterministic_answering _) H).
Defined.

(** * Further properties of the service *)

(** ** Requests *)

Section Silence.

Context {M : Type}.

Lemma silent_ret {A} (a : A) : silent (mret a : IO M A).
Proof. by intros w. Qed.

Lemma silent_throw {A} e : silent (io_throw e : IO M A).
Proof. by intros w. Qed.

Lemma silent_lift {A} (c : completion A) : silent (io_lift c : IO M A).
Proof. by intros w. Qed.

Lemma silent_console lvl pieces : silent (console lvl pieces : IO M unit).
Proof.
  intros w. cbn [console fs remote trace snd].
  by rewrite requests_snoc_console.
Qed.

Lemma silent_readFile path : silent (readFile path : IO M jsstring).
Proof. by intros w. Qed.

Lemma silent_bind {A B} (m : IO M A) (k : A → IO M B) :
  silent m → (∀ a, silent (k a)) → silent (m ≫= k).
Proof.
  intros Hm Hk w. io_unfold. destruct (Hm w) as (E1 & E2 & E3).
  destruct (m w) as [[a|e] w1]; cbn [snd] in *; [|done].
  destruct (Hk a w1) as (F1 & F2 & F3). by rewrite F1, F2, F3.
Qed.

Lemma silent_try_catch {A} (m : IO M A) (h : value → IO M A) :
  silent m → (∀ e, silent (h e)) → silent (try_catch m h).
Proof.
  intros Hm Hh w. unfold try_catch. destruct (Hm w) as (E1 & E2 & E3).
  destruct (m w) as [[a|e] w1]; cbn [snd] in *; [done|].
  destruct (Hh e w1) as (F1 & F2 & F3). by rewrite F1, F2, F3.
Qed.

End Silence.

Ltac silent_tac :=
  repeat first
    [ apply silent_ret | apply silent_throw | apply silent_lift
    | apply silent_console | apply silent_readFile
    | apply silent_bind; [|intros ?]
    | case_match ].

Section Requests.

Context {M : Type} (generateContent : jsstring → M → completion value * M).

Lemma silent_parse_response objectId text :
  silent (parse_response objectId text : IO M value).
Proof. unfold parse_response. silent_tac. Qed.

Lemma silent_extract objectId text :
  silent (extract objectId text : IO M EnrichmentResult).
Proof.
  unfold extract.
  apply silent_bind; [apply silent_parse_response | intros ?]. silent_tac.
Qed.

Lemma silent_response_text objectId result :
  silent (response_text objectId result : IO M value).
Proof. unfold response_text. silent_tac. Qed.

Lemma silent_enrich_recover objectId error :
  silent (enrich_recover (M:=M) objectId error).
Proof. unfold enrich_recover. silent_tac. Qed.


Lemma sends_call_model prompt :
  sends generateContent prompt (call_model generateContent prompt).
Proof.
  intros w. unfold call_model.
  destruct (generateContent prompt (remote w)) as [c m]. cbn.
  unfold requests. rewrite omap_app. done.
Qed.

Lemma sends_bind {A B} prompt (m : IO M A) (k : A → IO M B) :
  sends generateContent prompt m → (∀ a, silent (k a)) →
  sends generateContent prompt (m ≫= k).
Proof.
  intros Hm Hk w. io_unfold. destruct (Hm w) as (E1 & E2 & E3).
  destruct (m w) as [[a|e] w1]; cbn [snd] in *; [|done].
  destruct (Hk a w1) as (F1 & F2 & F3). by rewrite F1, F2, F3.
Qed.

Lemma sends_try_catch {A} prompt (m : IO M A) (h : value → IO M A) :
  sends generateContent prompt m → (∀ e, silent (h e)) →
  sends generateContent prompt (try_catch m h).
Proof.
  intros Hm Hh w. unfold try_catch. destruct (Hm w) as (E1 & E2 & E3).
  destruct (m w) as [[a|e] w1]; cbn [snd] in *; [done|].
  destruct (Hh e w1) as (F1 & F2 & F3). by rewrite F1, F2, F3.
Qed.

Lemma sends_after_console {A} prompt lvl pieces (m : IO M A) :
  sends generateContent prompt m →
  sends generateContent prompt (console lvl pieces ≫= λ _, m).
Proof.
  intros Hm w. io_unfold. cbn.
  match goal with
  | |- context [m ?w0] => destruct (Hm w0) as (E1 & E2 & E3)
  end.
  cbn [fs remote trace] in *. by rewrite E1, E2, E3, requests_snoc_console.
Qed.

Lemma enrich_usable_sends content objectId :
  usable content = true →
  Js.stringifies objectId = true →
  sends generateContent (prompt_of content)
    (enrichContentWithAI generateContent content objectId).
Proof.
  intros Hc Hid. destruct content as [| | | |[|c s]| | |]; try done.
  unfold enrichContentWithAI. cbn [Js.truthy Js.typeof negb orb].
  rewrite bool_decide_eq_true_2 by done. cbn [negb].
  apply sends_try_catch; [|intros e; apply silent_enrich_recover].
  unfold enrich_attempt. rewrite template_ok by (cbn; by rewrite Hid).
  change (io_lift (Return ?a) ≫= ?k) with (k a). cbn beta.
  apply sends_after_console.
  apply sends_bind; [apply sends_call_model | intros result].
  apply silent_bind; [apply silent_response_text | intros; apply silent_extract].
Qed.

(** X1: one request per enrichment of a usable content, no more (nothing
    is tried again) and no less, whatever the model answers and whether
    the function returns or raises: the prompt is the instructions around
    the content, the model is called once, and the file system is left
    alone. *)
Theorem enrich_sends_one_request content objectId (w : world M) :
  usable content = true →
  Js.stringifies objectId = true →
  requests (trace (enrichContentWithAI generateContent content objectId w).2)
  = requests (trace w) ++ [prompt_head ++ text_of content ++ prompt_tail]
  ∧ remote (enrichContentWithAI generateContent content objectId w).2
    = (generateContent (prompt_head ++ text_of content ++ prompt_tail)
         (remote w)).2
  ∧ fs (enrichContentWithAI generateContent content objectId w).2 = fs w.
Proof.
  intros Hc Hid.
  destruct (enrich_usable_sends content objectId Hc Hid w) as (E1 & E2 & E3).
  by rewrite E1, E2, E3.
Qed.



End Requests.

Lemma enrich_sends_one_request_witness :
  usable (VString solar_content) = true
  ∧ Js.stringifies (VString (lit "1")) = true
  ∧ requests (trace (enrichContentWithAI (answering (fenced solar_payload))
                       (VString solar_content) (VString (lit "1"))
                       (disk solar_articles)).2)
    = requests (trace (disk solar_articles))
      ++ [prompt_head ++ text_of (VString solar_content) ++ prompt_tail]
  ∧ remote (enrichContentWithAI (answering (fenced solar_payload))
              (VString solar_content) (VString (lit "1"))
              (disk solar_articles)).2
    = (answering (fenced solar_payload)
         (prompt_head ++ text_of (VString solar_content) ++ prompt_tail)
         (remote (disk solar_articles))).2
  ∧ fs (enrichContentWithAI (answering (fenced solar_payload))
          (VString solar_content) (VString (lit "1"))
          (disk solar_articles)).2
    = fs (disk solar_articles).
Proof.
  split; [reflexivity|]. split; [reflexivity|].
  exact (enrich_sends_one_request (answering (fenced solar_payload))
           (VString solar_content) (VString (lit "1")) (disk solar_articles)
           eq_refl eq_refl).
Defined.


(** ** The paths through one enrichment *)

Lemma or_false (a b : completion bool) :
  (a ≫= λ x : bool, if x then Return true else b) = Return false →
  a = Return false ∧ b = Return false.
Proof. destruct a as [[|]|e]; by cbn. Qed.

(** X3: the check of the response does its job: when it lets a response
    through, the text read from the first part of the first candidate is
    there and truthy (not [undefined], not the empty text), so that the
    read on the next line cannot raise. *)
Theorem candidate_text_truthy result :
  no_text_candidate result = Return false →
  ∃ text, Js.path result candidate_text = Return text
          ∧ Js.truthy text = true.
Proof.
  unfold no_text_candidate. cbv zeta. intros H.
  do 6 (apply or_false in H as [_ H]).
  unfold candidate_text.
  destruct (Js.path result _) as [text|e]; [|done].
  exists text. split; [done|]. cbn in H.
  destruct (Js.truthy text); [done | discriminate].
Qed.

Lemma candidate_text_truthy_witness :
  no_text_candidate (response_with (VString prose)) = Return false
  ∧ ∃ text, Js.path (response_with (VString prose)) candidate_text
            = Return text
            ∧ Js.truthy text = true.
Proof.
  assert (no_text_candidate (response_with (VString prose)) = Return false)
    as H by (vm_compute; reflexivity).
  split; [exact H|].
  exact (candidate_text_truthy (response_with (VString prose)) H).
Defined.

Section Paths.

Context {M : Type} (generateContent : jsstring → M → completion value * M).

(** X4: on success the result is the normalized payload and nothing
    else happens than this: the announcement, the request, the note of
    success. *)
Theorem enrich_returns_normalized s objectId (w : world M) t m' j payload r :
  s ≠ [] →
  Js.stringifies objectId = true →
  responds_with generateContent (prompt_of (VString s)) (remote w) t m' →
  json_text (Js.trim (Js.replace_fences t)) = Some j →
  JSON.parse j = Return payload →
  normalize payload = Return r →
  enrichContentWithAI generateContent (VString s) objectId w
  = (Return r,
     World (fs w) m'
       (trace w ++
        [Console Log [VString (lit "Sending content for enrichment (ID: ");
                      objectId; VString (lit ")...")];
         Request (prompt_of (VString s));
         Console Log [VString (lit "Enrichment successful for ID: ");
                      objectId]])).
Proof.
  intros Hne Hid Hresp Hj Hp Hn. unfold enrichContentWithAI.
  destruct s as [|c s]; [done|].
  cbn [Js.truthy Js.typeof negb orb]. rewrite bool_decide_eq_true_2 by done.
  cbn [negb]. unfold try_catch.
  rewrite (enrich_attempt_text _ _ _ _ t m') by done.
  rewrite (extract_parsed _ _ j payload) by done. rewrite Hn.
  cbn [fs remote trace]. by rewrite <- !app_assoc.
Qed.


End Paths.

Lemma enrich_returns_normalized_witness :
  solar_content ≠ []
  ∧ Js.stringifies (VString (lit "1")) = true
  ∧ responds_with (answering (fenced solar_payload))
      (prompt_of (VString solar_content)) (remote (disk solar_articles))
      (fenced solar_payload) 1
  ∧ json_text (Js.trim (Js.replace_fences (fenced solar_payload)))
    = Some solar_payload
  ∧ JSON.parse solar_payload = Return solar_parsed
  ∧ normalize solar_parsed = Return solar_result
  ∧ enrichContentWithAI (answering (fenced solar_payload))
      (VString solar_content) (VString (lit "1")) (disk solar_articles)
    = (Return solar_result,
       World (fs (disk solar_articles)) 1
         (trace (disk solar_articles) ++
          [Console Log [VString (lit "Sending content for enrichment (ID: ");
                        VString (lit "1"); VString (lit ")...")];
           Request (prompt_of (VString solar_content));
           Console Log [VString (lit "Enrichment successful for ID: ");
                        VString (lit "1")]])).
Proof.
  assert (solar_content ≠ []) as Hne by (vm_compute; discriminate).
  assert (responds_with (answering (fenced solar_payload))
            (prompt_of (VString solar_content)) (remote (disk solar_articles))
            (fenced solar_payload) 1) as Hresp.
  { apply responds_with_answering. vm_compute. discriminate. }
  assert (json_text (Js.trim (Js.replace_fences (fenced solar_payload)))
          = Some solar_payload) as Hj by (vm_compute; reflexivity).
  assert (JSON.parse solar_payload = Return solar_parsed)
    as Hp by (vm_compute; reflexivity).
  assert (normalize solar_parsed = Return solar_result)
    as Hn by (vm_compute; reflexivity).
  split; [exact Hne|]. split; [reflexivity|]. split; [exact Hresp|].
  split; [exact Hj|]. split; [exact Hp|]. split; [exact Hn|].
  exact (enrich_returns_normalized (answering (fenced solar_payload))
           solar_content (VString (lit "1")) (disk solar_articles)
           (fenced solar_payload) 1 solar_payload solar_parsed solar_result
           Hne eq_refl Hresp Hj Hp Hn).
Defined.


(** ** Finding the JSON text *)

Section Raw.

Context {M : Type}.
Implicit Types (w : world M) (t p j : jsstring).

(** X6: the JSON text is found by the braces of the raw response:
    removing the fences and trimming never changes what is found.  When
    the raw text has an opening brace before its last closing brace, the
    outcome is that of [JSON.parse] on the text between them; when it has
    not, the extraction raises. *)
Theorem parse_response_raw objectId t w :
  (∀ j, json_text t = Some j →
        parse_response objectId (VString t) w = (JSON.parse j, w))
  ∧ (json_text t = None →
     ∃ e w', parse_response objectId (VString t) w = (Throw e, w')).
Proof.
  split.
  - intros j Hj. apply parse_response_found. by rewrite json_text_cleaned.
  - intros Hj. apply parse_response_not_found. by rewrite json_text_cleaned.
Qed.

(** X7: text without braces around a payload, before it or behind it
    (a fence, a line break, a sentence), does not change its extraction:
    same result or same error, same console. *)
Theorem extract_ignores_decoration objectId pre p suf j w :
  brace_free pre → brace_free suf →
  json_text p = Some j →
  extract objectId (VString (pre ++ p ++ suf)) w
  = extract objectId (VString p) w.
Proof.
  intros Hpre Hsuf Hj. unfold extract. io_unfold.
  rewrite (parse_response_found objectId p j)
    by (by rewrite json_text_cleaned).
  rewrite (parse_response_found objectId (pre ++ p ++ suf) j); [done|].
  by rewrite json_text_cleaned, json_text_app.
Qed.

End Raw.

Lemma parse_response_raw_witness :
  (json_text (fenced solar_payload) = Some solar_payload
   ∧ parse_response (M:=nat) (VString (lit "1"))
       (VString (fenced solar_payload)) empty_disk
     = (JSON.parse solar_payload, empty_disk))
  ∧ (json_text prose = None
     ∧ ∃ e w', parse_response (VString (lit "1")) (VString prose) empty_disk
               = (Throw e, w')).
Proof.
  assert (json_text (fenced solar_payload) = Some solar_payload)
    as H1 by (vm_compute; reflexivity).
  assert (json_text prose = None) as H2 by (vm_compute; reflexivity).
  split; (split; [done|]).
  - exact (proj1 (parse_response_raw (VString (lit "1"))
                    (fenced solar_payload) empty_disk) solar_payload H1).
  - exact (proj2 (parse_response_raw (VString (lit "1")) prose empty_disk)
             H2).
Defined.

Lemma extract_ignores_decoration_witness :
  brace_free (lit "Here is the result: ")
  ∧ brace_free (lit " Anything else?")
  ∧ json_text solar_payload = Some solar_payload
  ∧ extract (VString (lit "1"))
      (VString (lit "Here is the result: " ++ solar_payload
                ++ lit " Anything else?")) empty_disk
    = extract (VString (lit "1")) (VString solar_payload) empty_disk.
Proof.
  assert (brace_free (lit "Here is the result: ")) as H1
    by (split; by apply (bool_decide_unpack _)).
  assert (brace_free (lit " Anything else?")) as H2
    by (split; by apply (bool_decide_unpack _)).
  assert (json_text solar_payload = Some solar_payload)
    as H3 by (vm_compute; reflexivity).
  split; [exact H1|]. split; [exact H2|]. split; [exact H3|].
  exact (extract_ignores_decoration (VString (lit "1"))
           (lit "Here is the result: ") solar_payload (lit " Anything else?")
           solar_payload empty_disk H1 H2 H3).
Defined.

(** ** Keywords *)

Section Keywords_clean.

Implicit Types (s : jsstring).

Lemma trimStart_head s c r :
  Js.trimStart s = c :: r → Js.is_space c = false.
Proof.
  induction s as [|d s IH]; cbn [Js.trimStart]; [done|].
  destruct (Js.is_space d) eqn:E; [done|]. by intros [= <- _].
Qed.

Lemma trimStart_idemp s : Js.trimStart (Js.trimStart s) = Js.trimStart s.
Proof.
  destruct (Js.trimStart s) as [|c r] eqn:E; [done|].
  cbn [Js.trimStart]. by rewrite (trimStart_head _ _ _ E).
Qed.

Lemma trimEnd_idemp s : Js.trimEnd (Js.trimEnd s) = Js.trimEnd s.
Proof.
  induction s as [|c r IH]; [done|]. cbn [Js.trimEnd].
  destruct (Js.trimEnd r) as [|d r'] eqn:E.
  - destruct (Js.is_space c) eqn:Ec; [done|]. cbn. by rewrite Ec.
  - cbn [Js.trimEnd] in *. by rewrite IH.
Qed.

Lemma trimEnd_keeps_head c r :
  Js.is_space c = false →
  Js.trimStart (Js.trimEnd (c :: r)) = Js.trimEnd (c :: r).
Proof.
  intros Hc. cbn [Js.trimEnd].
  destruct (Js.trimEnd r); rewrite ?Hc; cbn [Js.trimStart]; by rewrite Hc.
Qed.

Lemma trim_trimmed s : trimmed (Js.trim s).
Proof.
  unfold trimmed, Js.trim. split; [|apply trimEnd_idemp].
  destruct (Js.trimStart s) as [|c r] eqn:E; [done|].
  apply trimEnd_keeps_head. by eapply trimStart_head.
Qed.

Lemma elem_of_trim s x : x ∈ Js.trim s → x ∈ s.
Proof.
  intros Hx. destruct (trim_spec s) as (a & b & Hs & _). rewrite Hs.
  rewrite !elem_of_app. auto.
Qed.

(** X8: every keyword returned has no comma in it and no white space at
    either end, whatever the payload. *)
Theorem normalize_keywords_clean payload r :
  normalize payload = Return r →
  Forall (λ k, (COMMA ∉ k) ∧ trimmed k) (keywords r).
Proof.
  unfold normalize.
  destruct (Js.get payload (lit "summary")) as [sm|]; [|done].
  destruct (Js.get payload (lit "keywords")) as [k|]; [|done].
  cbn [mbind completion_bind].
  assert (Hks : ∀ ks,
    (if Js.truthy k then split_method k else Return []) = Return ks →
    Forall (λ k, (COMMA ∉ k) ∧ trimmed k) ks).
  { intros ks. destruct (Js.truthy k).
    - destruct k as [| | | |s| | |]; try done. cbn. intros [= <-].
      apply Forall_fmap. eapply Forall_impl; [apply (split_pieces s COMMA)|].
      intros piece Hpiece. cbn. split; [|apply trim_trimmed].
      intros Hin. by apply Hpiece, elem_of_trim.
    - intros [= <-]. constructor. }
  destruct (if Js.truthy k then split_method k else Return []) as [ks|];
    [|done].
  specialize (Hks ks eq_refl). cbn [mbind completion_bind].
  destruct (Js.get payload (lit "category")) as [c|]; [|done].
  destruct (Js.get payload (lit "sentiment")) as [t|]; [|done].
  cbn. by intros [= <-].
Qed.

End Keywords_clean.

Lemma normalize_keywords_clean_witness :
  normalize (VObject cooking_payload) = Return cooking_result
  ∧ Forall (λ k, (COMMA ∉ k) ∧ trimmed k) (keywords cooking_result).
Proof.
  assert (normalize (VObject cooking_payload) = Return cooking_result)
    as H by (vm_compute; reflexivity).
  split; [exact H|].
  exact (normalize_keywords_clean (VObject cooking_payload) cooking_result H).
Defined.

(** ** The batch at its edges *)

Section Edges.

Context {M : Type} (generateContent : jsstring → M → completion value * M).




Lemma get_text_field p k :
  k ≠ lit "length" → Js.key_index k = None →
  Js.get (VString p) k = Return VUndefined.
Proof.
  intros Hk Hi. cbn [Js.get]. rewrite bool_decide_eq_false_2 by done.
  by rewrite Hi.
Qed.

Lemma enrich_each_texts (l : list jsstring) acc (w : world M) :
  ∃ w', enrich_each generateContent (VString <$> l) acc w
        = (Return (acc ++ ((λ p, enriched (VString p) default_result) <$> l)),
           w')
    ∧ requests (trace w') = requests (trace w)
    ∧ remote w' = remote w.
Proof.
  revert acc w. induction l as [|p l IH]; intros acc w.
  - exists w. cbn. by rewrite app_nil_r.
  - cbn [fmap list_fmap enrich_each].
    rewrite !get_text_field by (by vm_compute). io_unfold.
    rewrite (enrich_skip generateContent VUndefined VUndefined w) by done.
    match goal with
    | |- context [enrich_each generateContent _ ?acc' ?w1] =>
        destruct (IH acc' w1) as (w' & -> & F1 & F3)
    end.
    exists w'. rewrite <- app_assoc. split; [done|].
    rewrite F1, F3. cbn [remote trace]. by rewrite requests_snoc_console.
Qed.

(** X10: a source that holds one JSON text is not refused: the text is
    iterated, and every code point of it comes out as a record with the
    default result, without any request to the model. *)
Theorem processArticles_text_source filePath (w : world M) content s :
  fs w filePath = Return content →
  JSON.parse content = Return (VString s) →
  ∃ w', processArticles generateContent filePath w
        = (Return ((λ p, enriched (VString p) default_result)
                   <$> Js.code_points s), w')
    ∧ requests (trace w') = requests (trace w)
    ∧ remote w' = remote w.
Proof.
  intros H Hp.
  destruct (enrich_each_texts (Js.code_points s) [] w) as (w' & He & Hr).
  unfold processArticles. io_unfold. rewrite H, Hp. cbn [Js.iterate].
  rewrite He. by exists w'.
Qed.

End Edges.


Lemma processArticles_text_source_witness :
  fs (disk text_source) articles_path = Return text_source
  ∧ JSON.parse text_source = Return (VString (lit "ab"))
  ∧ ∃ w', processArticles (answering solar_payload) articles_path
            (disk text_source)
          = (Return ((λ p, enriched (VString p) default_result)
                     <$> Js.code_points (lit "ab")), w')
          ∧ requests (trace w') = requests (trace (disk text_source))
          ∧ remote w' = remote (disk text_source).
Proof.
  assert (fs (disk text_source) articles_path = Return text_source)
    as H1 by (vm_compute; reflexivity).
  assert (JSON.parse text_source = Return (VString (lit "ab")))
    as H2 by (vm_compute; reflexivity).
  split; [exact H1|]. split; [exact H2|].
  exact (processArticles_text_source (answering solar_payload) articles_path
           (disk text_source) text_source (lit "ab") H1 H2).
Defined.

(** ** The indexing script *)

Section Index.

Context {M A : Type}.
Variable generateContent : jsstring → M → completion value * M.
Variable saveObjects : list value → A → completion value * A.
Variable waitForTask : value → A → completion value * A.


Lemma off_index_silent {B} (m : IO (backend M A) B) : silent m → off_index m.
Proof. intros H w. by destruct (H w) as (_ & -> & _). Qed.

Lemma off_index_bind {B C} (m : IO (backend M A) B) (k : B → IO (backend M A) C) :
  off_index m → (∀ a, off_index (k a)) → off_index (m ≫= k).
Proof.
  intros Hm Hk w. io_unfold. destruct (Hm w) as (E1 & E2).
  destruct (m w) as [[a|e] w1]; cbn [snd] in *; [|done].
  destruct (Hk a w1) as (F1 & F2). by rewrite F1, F2.
Qed.

Lemma off_index_try_catch {B} (m : IO (backend M A) B) h :
  off_index m → (∀ e, off_index (h e)) → off_index (try_catch m h).
Proof.
  intros Hm Hh w. unfold try_catch. destruct (Hm w) as (E1 & E2).
  destruct (m w) as [[a|e] w1]; cbn [snd] in *; [done|].
  destruct (Hh e w1) as (F1 & F2). by rewrite F1, F2.
Qed.

Lemma off_index_call_model prompt :
  off_index (call_model (generate (A:=A) generateContent) prompt).
Proof.
  intros w. unfold call_model, generate.
  by destruct (generateContent prompt (model (remote w))).
Qed.

Lemma off_index_enrich content objectId :
  off_index (enrichContentWithAI (generate (A:=A) generateContent)
               content objectId).
Proof.
  unfold enrichContentWithAI. case_match.
  - apply off_index_silent. silent_tac.
  - apply off_index_try_catch;
      [|intros e; apply off_index_silent, silent_enrich_recover].
    unfold enrich_attempt.
    apply off_index_bind; [apply off_index_silent, silent_lift | intros msg].
    apply off_index_bind; [apply off_index_silent, silent_console | intros _].
    apply off_index_bind; [apply off_index_call_model | intros result].
    apply off_index_bind; [apply off_index_silent, silent_response_text|].
    intros text. apply off_index_silent, silent_extract.
Qed.

Lemma off_index_enrich_each articles acc :
  off_index (enrich_each (generate (A:=A) generateContent) articles acc).
Proof.
  revert acc. induction articles as [|x rest IH]; intros acc.
  - apply off_index_silent, silent_ret.
  - cbn [enrich_each].
    apply off_index_bind; [apply off_index_silent, silent_lift | intros c].
    apply off_index_bind; [apply off_index_silent, silent_lift | intros i].
    apply off_index_bind; [apply off_index_enrich | intros e]. apply IH.
Qed.

Lemma off_index_processArticles filePath :
  off_index (processArticles (generate (A:=A) generateContent) filePath).
Proof.
  unfold processArticles. apply off_index_try_catch.
  - apply off_index_bind; [apply off_index_silent, silent_readFile | intros c].
    apply off_index_bind; [apply off_index_silent, silent_lift | intros a].
    apply off_index_bind; [apply off_index_silent, silent_lift | intros l].
    apply off_index_enrich_each.
  - intros e. apply off_index_silent. silent_tac.
Qed.

Lemma silent_index_recover error :
  silent (index_recover (M:=M) (A:=A) error).
Proof. unfold index_recover. silent_tac. Qed.

Lemma index_recover_remote error (w : world (backend M A)) :
  remote (index_recover error w).2 = remote w.
Proof. by destruct (silent_index_recover error w) as (_ & ? & _). Qed.

Lemma typeof_undefined v :
  bool_decide (Js.typeof v = lit "undefined") || is_null v = false →
  v ≠ VUndefined ∧ v ≠ VNull.
Proof. by destruct v. Qed.

(** X11: whatever the source, the model and the index do,
    [indexEnrichedData] reaches the index in one of three ways only: not
    at all; with one [saveObjects], of a batch that is not empty; or with
    one [saveObjects] and then one [waitForTask], for the task identifier
    read from the first element of the response, which is then neither
    [undefined] nor [null].  It never saves an empty batch, never waits
    without a task and never tries again. *)
Theorem indexEnrichedData_protocol (w : world (backend M A)) :
  let b := remote w in
  let b' := remote (indexEnrichedData generateContent saveObjects
                      waitForTask w).2 in
  (calls b' = calls b ∧ index b' = index b)
  ∨ (∃ objects,
       objects ≠ []
       ∧ calls b' = calls b ++ [SaveObjects ALGOLIA_INDEX_NAME objects]
       ∧ index b' = (saveObjects objects (index b)).2)
  ∨ (∃ objects response a taskID,
       objects ≠ []
       ∧ saveObjects objects (index b) = (Return response, a)
       ∧ Js.path response [lit "0"; lit "taskID"] = Return taskID
       ∧ taskID ≠ VUndefined ∧ taskID ≠ VNull
       ∧ calls b' = calls b ++ [SaveObjects ALGOLIA_INDEX_NAME objects;
                                WaitForTask ALGOLIA_INDEX_NAME taskID]
       ∧ index b' = (waitForTask taskID a).2).
Proof.
  intros b b'. subst b b'. unfold indexEnrichedData.
  io_unfold. cbn [fs remote trace].
  set (w0 := World _ _ _).
  assert (remote w0 = remote w) as <- by done.
  destruct (off_index_processArticles (lit "./data/articles.json") w0)
    as [Hi Hc].
  unfold index_attempt. io_unfold.
  destruct (processArticles _ _ w0) as [[outs|e] w1]; cbn [snd] in Hi, Hc.
  2:{ left. by rewrite index_recover_remote. }
  destruct (bool_decide (length outs = 0)) eqn:Hlen.
  { left. cbn. by rewrite Hi, Hc. }
  apply bool_decide_eq_false in Hlen.
  assert (outs ≠ []) as Hne by (by intros ->).
  unfold client_saveObjects. cbn [fs remote trace]. rewrite Hi.
  destruct (saveObjects outs (index (remote w0))) as [[resp|e] a] eqn:Hs.
  2:{ right; left. exists outs. rewrite index_recover_remote.
      cbn [remote index calls model snd]. rewrite ?Hs.
      by rewrite Hc. }
  destruct (Js.path resp _) as [taskID|e] eqn:Hp.
  2:{ right; left. exists outs. rewrite index_recover_remote.
      cbn [remote index calls model snd]. rewrite ?Hs.
      by rewrite Hc. }
  destruct (bool_decide (Js.typeof taskID = lit "undefined") || is_null taskID)
    eqn:Ht.
  { right; left. exists outs. rewrite index_recover_remote.
      cbn [remote index calls model snd]. rewrite ?Hs.
    by rewrite Hc. }
  apply typeof_undefined in Ht as [Hu Hn].
  destruct (template _) as [msg|e].
  2:{ right; left. exists outs. rewrite index_recover_remote.
      cbn [remote index calls model snd]. rewrite ?Hs.
      by rewrite Hc. }
  unfold client_waitForTask. cbn [fs remote trace index model calls].
  right; right. exists outs, resp, a, taskID.
  destruct (waitForTask taskID a) as [[v|e] a'] eqn:Hw;
    rewrite ?index_recover_remote; cbn [remote index calls model snd];
    by rewrite Hc, <- app_assoc.
Qed.





Lemma get_throws_error v k e :
  Js.get v k = Throw e → ∃ n m, e = VError n m.
Proof.
  destruct v; cbn [Js.get]; repeat case_match; try done;
    intros [= <-]; by eexists _, _.
Qed.

Lemma path_throws_error v ks e :
  Js.path v ks = Throw e → ∃ n m, e = VError n m.
Proof.
  unfold Js.path. induction ks as [|k ks IH] using rev_ind; [done|].
  rewrite foldl_app. cbn [foldl].
  destruct (foldl _ _ ks) as [x|e']; cbn.
  - apply get_throws_error.
  - intros [= <-]. by apply IH.
Qed.

Lemma template_throws_error pieces e :
  template pieces = Throw e → ∃ n m, e = VError n m.
Proof.
  unfold template. case_match; [done|]. intros [= <-]. by eexists _, _.
Qed.

Lemma reportable_error name message : reportable (VError name message).
Proof.
  split; [apply readable_error|]. intros status msg Hs _ Ht.
  vm_compute in Hs. by injection Hs as <-.
Qed.

Lemma readable_get e k : readable e → ∃ v, Js.get e k = Return v.
Proof.
  intros [H1 H2]. destruct e; try done; cbn [Js.get]; repeat case_match;
    by eexists.
Qed.

Lemma index_recover_returns error (w : world (backend M A)) :
  reportable error → ∃ w', index_recover error w = (Return tt, w').
Proof.
  intros [Hr Hst]. unfold index_recover. io_unfold.
  destruct (readable_get error (lit "status") Hr) as [status Hs].
  destruct (readable_get error (lit "message") Hr) as [message Hm].
  destruct (readable_get error (lit "details") Hr) as [details Hd].
  rewrite Hs, Hm, Hd. unfold and_then. cbn [mbind completion_bind].
  destruct (Js.truthy status) eqn:Ts; cbn [mbind completion_bind].
  - destruct (Js.truthy message) eqn:Tm.
    + destruct (Hst status message) as [P1 P2]; [done..|].
      rewrite template_ok by (cbn; by rewrite P1, P2).
      destruct (Js.truthy details); by eexists.
    + destruct (Js.truthy details); by eexists.
  - rewrite Ts. destruct (Js.truthy details); by eexists.
Qed.

Lemma processArticles_returns {N} (g : jsstring → N → completion value * N)
    filePath (w : world N) :
  ∃ outs w', processArticles g filePath w = (Return outs, w').
Proof.
  unfold processArticles, try_catch.
  match goal with
  | |- context [match ?body with (_, _) => _ end] =>
      destruct body as [[outs|e] w']
  end; by eexists _, _.
Qed.

(** X14: [indexEnrichedData] returns and never raises, whatever the
    source and the model do, provided that the index rejects with
    errors its [catch] block can report. *)
Theorem indexEnrichedData_returns (w : world (backend M A)) :
  rejects_reportably saveObjects →
  rejects_reportably waitForTask →
  ∃ w', indexEnrichedData generateContent saveObjects waitForTask w
        = (Return tt, w').
Proof.
  intros Hsave Hwait. unfold indexEnrichedData. io_unfold.
  cbn [fs remote trace]. set (w0 := World _ _ _).
  unfold index_attempt. io_unfold.
  destruct (processArticles_returns (generate generateContent)
              (lit "./data/articles.json") w0) as (outs & w1 & ->).
  case_bool_decide; [by eexists|].
  unfold client_saveObjects. cbn [fs remote trace].
  destruct (saveObjects outs _) as [[resp|e] a] eqn:Hs.
  2:{ apply index_recover_returns. by eapply Hsave. }
  destruct (Js.path resp _) as [taskID|e] eqn:Hp.
  2:{ apply index_recover_returns.
      destruct (path_throws_error _ _ _ Hp) as (n & m & ->).
      apply reportable_error. }
  destruct (bool_decide _ || is_null taskID).
  { apply index_recover_returns, reportable_error. }
  destruct (template _) as [msg|e] eqn:Ht.
  2:{ apply index_recover_returns.
      destruct (template_throws_error _ _ Ht) as (n & m & ->).
      apply reportable_error. }
  unfold client_waitForTask. cbn [fs remote trace index model calls].
  destruct (waitForTask taskID a) as [[v|e] a'] eqn:Hw; [by eexists|].
  apply index_recover_returns. by eapply Hwait.
Qed.

End Index.



Lemma indexEnrichedData_returns_witness :
  rejects_reportably (accepting task_7)
  ∧ rejects_reportably completing
  ∧ ∃ w', indexEnrichedData (answering (fenced solar_payload))
            (accepting task_7) completing (site solar_articles)
          = (Return tt, w').
Proof.
  assert (rejects_reportably (accepting task_7)) as H1
    by (intros x a e a'; discriminate).
  assert (rejects_reportably completing) as H2
    by (intros x a e a'; discriminate).
  split; [exact H1|]. split; [exact H2|].
  exact (indexEnrichedData_returns (answering (fenced solar_payload))
           (accepting task_7) completing (site solar_articles) H1 H2).
Defined.

(** ** The trial run *)

Section Trial_run.

Context {M : Type} (generateContent : jsstring → M → completion value * M).








(** X16: when the source cannot be read or parsed, [testEnrichment]
    returns, and what it has written is, in this order: its heading, the
    error logged by [processArticles], the heading of the sample, the
    note that nothing came back, and its closing line. *)
Theorem testEnrichment_unusable_source (w : world M) e :
  fs w (lit "./data/articles.json") = Throw e
  ∨ (∃ content, fs w (lit "./data/articles.json") = Return content
                ∧ JSON.parse content = Throw e) →
  testEnrichment generateContent w
  = (Return tt,
     World (fs w) (remote w)
       (trace w ++
        [Console Log [VString (lit "Testing AI enrichment process...")];
         load_error_log (lit "./data/articles.json") e;
         Console Log [VString (LF :: lit "--- Enriched Data Sample ---")];
         Console Log
           [VString (lit "No enriched data returned. Check for errors above.")];
         Console Log [VString (LF :: lit "Testing complete.")]])).
Proof.
  intros H. unfold testEnrichment. io_unfold. cbn [fs remote trace].
  set (w0 := World _ _ _).
  assert (processArticles generateContent (lit "./data/articles.json") w0
          = (Return [], World (fs w0) (remote w0)
                          (trace w0 ++ [load_error_log
                                          (lit "./data/articles.json") e])))
    as ->.
  { unfold processArticles. io_unfold. cbn [fs w0].
    destruct H as [-> | (content & -> & Hp)]; [done|]. by rewrite Hp. }
  cbn [fs remote trace w0 length]. rewrite bool_decide_eq_true_2 by done.
  cbn [fs remote trace]. by rewrite <- !app_assoc.
Qed.

End Trial_run.


Lemma testEnrichment_unusable_source_witness :
  (fs empty_disk (lit "./data/articles.json") = Throw enoent
   ∨ (∃ content, fs empty_disk (lit "./data/articles.json") = Return content
                 ∧ JSON.parse content = Throw enoent))
  ∧ testEnrichment (answering (fenced solar_payload)) empty_disk
    = (Return tt,
       World (fs empty_disk) (remote empty_disk)
         (trace empty_disk ++
          [Console Log [VString (lit "Testing AI enrichment process...")];
           load_error_log (lit "./data/articles.json") enoent;
           Console Log [VString (LF :: lit "--- Enriched Data Sample ---")];
           Console Log
             [VString (lit "No enriched data returned. Check for errors above.")];
           Console Log [VString (LF :: lit "Testing complete.")]])).
Proof.
  assert (fs empty_disk (lit "./data/articles.json") = Throw enoent
          ∨ (∃ content,
               fs empty_disk (lit "./data/articles.json") = Return content
               ∧ JSON.parse content = Throw enoent)) as H
    by (left; reflexivity).
  split; [exact H|].
  exact (testEnrichment_unusable_source (answering (fenced solar_payload))
           empty_disk enoent H).
Defined.
